(** * Todo list API (index.ts): a shallow embedding and its properties

    The program is one file, [index.ts]: a Fastify server with five routes
    over one SQLite table, [todos].  The embedding follows the file from top
    to bottom: the table and the SQL statements the handlers prepare, the
    Fastify instance, the [parseIdHook] pre-handler, the five handlers and
    the way Fastify turns what a handler does into a reply. *)

From Stdlib Require Import ZArith NArith String Ascii SpecFloat.
From Stdlib Require DecimalPos DecimalN.
From stdpp Require Import gmap list sorting.

Local Open Scope Z_scope.

(** ** JavaScript strings and numbers *)

(** A JavaScript string is a sequence of UTF-16 code units. *)
Definition jsstring : Type := list N.

(** A string literal of the program, as code units. *)
Definition lit (s : string) : jsstring :=
  N_of_ascii <$> list_ascii_of_string s.

(** The Number values [parseInt] can return.  A finite value is always an
    integer here and is kept as that integer; [-0] is kept as [0], which
    [isNaN] and [<=] cannot tell apart. *)
Inductive Number : Type :=
  | NaN
  | Infinity (negative : bool)
  | Finite (z : Z).

Global Instance Number_eq_dec : EqDecision Number.
Proof. solve_decision. Defined.

Definition isNaN (x : Number) : bool :=
  match x with NaN => true | _ => false end.

(** [x <= 0] on Numbers; a comparison with [NaN] is false. *)
Definition le_zero (x : Number) : bool :=
  match x with
  | NaN => false
  | Infinity negative => negative
  | Finite z => z <=? 0
  end.

(** Rounding of a positive integer to the nearest double, ties to even:
    the 53 leading bits are kept. *)
Definition roundMantissa (n : Z) : Z :=
  let s := Z.log2 n + 1 - 53 in
  if s <=? 0 then n
  else
    let q := Z.shiftr n s in
    let r := Z.land n (Z.ones s) in
    let half := Z.shiftl 1 (s - 1) in
    let q' := if (half <? r) || ((r =? half) && Z.odd q) then q + 1 else q in
    Z.shiftl q' s.

(** The Number value of a mathematical integer: what is written F(n) in the
    language standard. *)
Definition toNumber (n : Z) : Number :=
  let m := roundMantissa (Z.abs n) in
  if 2 ^ 1024 <=? m then Infinity (n <? 0) else Finite (Z.sgn n * m).

(** The same conversion through the Standard Library's IEEE 754 model, to
    compare [toNumber] with.  The double of an integer is an integer, so the
    division by a power of two is exact. *)
Definition number_of_spec_float (f : spec_float) : Number :=
  match f with
  | S754_zero _ => Finite 0
  | S754_infinity s => Infinity s
  | S754_nan => NaN
  | S754_finite s m e =>
      Finite ((if s then -1 else 1)
              * (if e <? 0 then Z.pos m / 2 ^ (- e) else Z.pos m * 2 ^ e))
  end.

Definition toNumber_ieee (n : Z) : Number :=
  number_of_spec_float (binary_normalize 53 1024 n 0 false).

(** White space and line terminators, the code units [parseInt] skips at
    the start of its argument. *)
Definition isWhiteSpace (c : N) : bool :=
  ((c =? 9) || (c =? 10) || (c =? 11) || (c =? 12) || (c =? 13)
   || (c =? 32) || (c =? 160) || (c =? 5760)
   || ((8192 <=? c) && (c <=? 8202))
   || (c =? 8232) || (c =? 8233) || (c =? 8239) || (c =? 8287)
   || (c =? 12288) || (c =? 65279))%N.

Fixpoint trimStart (s : jsstring) : jsstring :=
  match s with
  | c :: s' => if isWhiteSpace c then trimStart s' else s
  | [] => []
  end.

Definition isDigit (c : N) : bool := ((48 <=? c) && (c <=? 57))%N.

Definition digitValue (c : N) : Z := Z.of_N c - 48.

(** The longest prefix of decimal digits. *)
Fixpoint takeDigits (s : jsstring) : jsstring :=
  match s with
  | c :: s' => if isDigit c then c :: takeDigits s' else []
  | [] => []
  end.

(** The integer a sequence of decimal digits denotes. *)
Definition mathInt (ds : jsstring) : Z :=
  foldl (fun acc c => 10 * acc + digitValue c) 0 ds.

(** The sign [parseInt] reads and the rest of the string after it. *)
Definition readSign (s : jsstring) : Z * jsstring :=
  match s with
  | c :: s' =>
      if (c =? 45)%N then (-1, s')
      else if (c =? 43)%N then (1, s')
      else (1, s)
  | [] => (1, [])
  end.

(** [parseInt(s, 10)]. *)
Definition parseInt (s : jsstring) : Number :=
  let '(sign, rest) := readSign (trimStart s) in
  match takeDigits rest with
  | [] => NaN
  | ds => toNumber (sign * mathInt ds)
  end.

(** ** JSON values and the data model *)

(** A parsed JSON value; numbers are kept as integers. *)
#[local] Unset Elimination Schemes.
Inductive Json : Type :=
  | JNull
  | JBool (b : bool)
  | JNumber (z : Z)
  | JString (s : jsstring)
  | JArray (items : list Json)
  | JObject (members : list (jsstring * Json)).
#[local] Set Elimination Schemes.

(** A row of [todos] as a [SELECT *] or a [RETURNING *] yields it:
    [completed] is the stored integer. *)
Module Row.
Record t : Type := mk { id : Z; title : jsstring; completed : Z }.
End Row.

(** A todo as [TodoSchema] serialises it: [completed] is a boolean. *)
Module Todo.
Record t : Type := mk { id : Z; title : jsstring; completed : bool }.
End Todo.

(** The body of [POST /todos] once [CreateTodoBodySchema] has accepted it:
    [title] is a string; the schema does not forbid other members, which
    stay in the body. *)
Module CreateBody.
Record t : Type := mk { title : jsstring; others : list (jsstring * Json) }.
End CreateBody.

(** The body of [PUT /todos/:id] once [UpdateTodoBodySchema] has accepted
    it: [None] is [undefined]. *)
Module UpdateBody.
Record t : Type :=
  mk { title : option jsstring;
       completed : option bool;
       others : list (jsstring * Json) }.
End UpdateBody.

(** ** The database

    [todos] has an [INTEGER PRIMARY KEY] column, so the table is a finite
    map from the row id to the other two columns.  [AUTOINCREMENT] keeps the
    largest row id ever given out in [sqlite_sequence].  Row ids are kept as
    mathematical integers: the 64-bit ceiling of the engine is not modelled,
    and a row id read back into JavaScript is taken as exact. *)
Record Database : Type :=
  { todos : gmap Z (jsstring * Z);
    sqlite_sequence : Z }.

(** [new Database("todo.db")] on a file that does not exist yet, after the
    [CREATE TABLE IF NOT EXISTS]. *)
Definition fresh_db : Database :=
  {| todos := ∅; sqlite_sequence := 0 |}.

Definition max_rowid (t : gmap Z (jsstring * Z)) : Z :=
  map_fold (λ k _ acc, Z.max k acc) 0 t.

(** The row id an [INSERT] that names no id is given. *)
Definition next_rowid (d : Database) : Z :=
  Z.max (sqlite_sequence d) (max_rowid (todos d)) + 1.

Definition row_at (k : Z) (cols : jsstring * Z) : Row.t :=
  Row.mk k cols.1 cols.2.

(** A Number bound to the [?] of [WHERE id = ?] matches the row whose id it
    equals; [NaN] and the infinities equal no row id. *)
Definition rowid_of (id : Number) : option Z :=
  match id with
  | Finite z => Some z
  | _ => None
  end.

Definition find_row (id : Number) (d : Database) : option Row.t :=
  k ← rowid_of id; row_at k <$> todos d !! k.

Definition rowid_le (a b : Z * (jsstring * Z)) : Prop := a.1 ≤ b.1.

Global Instance rowid_le_dec : RelDecision rowid_le.
Proof. intros a b. unfold rowid_le. apply _. Defined.

(** The rows in row id order, the order of a table scan. *)
Definition all_rows (d : Database) : list Row.t :=
  (λ kv, row_at kv.1 kv.2) <$> merge_sort rowid_le (map_to_list (todos d)).

(** One assignment of the [SET] clause the update handler builds, with the
    value bound to its [?]. *)
Inductive Assignment : Type :=
  | SetTitle (v : jsstring)
  | SetCompleted (v : Z).

Definition assign (cols : jsstring * Z) (a : Assignment) : jsstring * Z :=
  match a with
  | SetTitle v => (v, cols.2)
  | SetCompleted v => (cols.1, v)
  end.

(** ** What a handler can do

    A handler runs against the database connection and either returns or
    throws.  [executed] counts the statements run on the connection. *)
Record World : Type :=
  { db : Database;
    executed : nat }.

Inductive Thrown : Type :=
  | TypeError
  | HttpError (statusCode : Z) (message : string).

Inductive Outcome (A : Type) : Type :=
  | Returned (a : A)
  | Threw (e : Thrown).
Arguments Returned {A} a.
Arguments Threw {A} e.

Definition M (A : Type) : Type := World → Outcome A * World.

Definition ret {A} (a : A) : M A := λ w, (Returned a, w).

Definition throw {A} (e : Thrown) : M A := λ w, (Threw e, w).

Definition bind {A B} (m : M A) (k : A → M B) : M B :=
  λ w, match m w with
       | (Returned a, w') => k a w'
       | (Threw e, w') => (Threw e, w')
       end.

Declare Scope handler_scope.
Delimit Scope handler_scope with handler.
Notation "'let*' x ':=' m 'in' k" :=
  (bind m (λ x, k))
  (at level 10, x pattern, m at level 100, k at level 200) : handler_scope.
Notation "m ';;;' k" :=
  (bind m (λ _, k))
  (at level 100, k at level 200, right associativity) : handler_scope.

(** Running one prepared statement: it reads the database, may change it,
    and counts as one statement. *)
Definition statement {A} (f : Database → A * Database) : M A :=
  λ w, let '(a, d) := f (db w) in
       (Returned a, {| db := d; executed := S (executed w) |}).

(** [SELECT * FROM todos], [.all()]. *)
Definition select_all : M (list Row.t) :=
  statement (λ d, (all_rows d, d)).

(** [SELECT * FROM todos WHERE id = ?], [.get(id)]: the row or [null]. *)
Definition select_by_id (id : Number) : M (option Row.t) :=
  statement (λ d, (find_row id d, d)).

(** [SELECT 1 FROM todos WHERE id = ?], [.get(id)]: truthy when a row is
    there. *)
Definition select_1_by_id (id : Number) : M bool :=
  statement (λ d, (bool_decide (is_Some (find_row id d)), d)).

(** [INSERT INTO todos (title, completed) VALUES (?, 0) RETURNING *],
    [.get(title)]. *)
Definition insert_returning (title : jsstring) : M Row.t :=
  statement (λ d,
    let k := next_rowid d in
    (Row.mk k title 0,
     {| todos := <[k := (title, 0)]> (todos d); sqlite_sequence := k |})).

(** [UPDATE todos SET ... WHERE id = ? RETURNING *], [.get(...values)]: the
    row after the assignments, or [null] when no row has that id. *)
Definition update_returning (sets : list Assignment) (id : Number)
  : M (option Row.t) :=
  statement (λ d,
    match rowid_of id with
    | Some k =>
        match todos d !! k with
        | Some cols =>
            let cols' := foldl assign cols sets in
            (Some (row_at k cols'),
             {| todos := <[k := cols']> (todos d);
                sqlite_sequence := sqlite_sequence d |})
        | None => (None, d)
        end
    | None => (None, d)
    end).

(** [DELETE FROM todos WHERE id = ?], [.run(id)]: the result's [changes]. *)
Definition delete_by_id (id : Number) : M nat :=
  statement (λ d,
    match rowid_of id with
    | Some k =>
        match todos d !! k with
        | Some _ =>
            (1%nat,
             {| todos := delete k (todos d);
                sqlite_sequence := sqlite_sequence d |})
        | None => (0%nat, d)
        end
    | None => (0%nat, d)
    end).

(** ** The Fastify instance and its replies *)

(** The [httpErrors] decorator: one constructor of errors per status. *)
Record HttpErrors : Type :=
  { notFound : string → Thrown;
    internalServerError : string → Thrown }.

(** What is reachable as [fastify.httpErrors] on an instance: [None] is
    [undefined]. *)
Record FastifyInstance : Type :=
  { httpErrors : option HttpErrors }.

(** The decorator as the plugin [@fastify/sensible] defines it: an error
    that carries the status code and the message. *)
Definition sensible : HttpErrors :=
  {| notFound := HttpError 404;
     internalServerError := HttpError 500 |}.

(** The instance of [index.ts]: [Fastify({ logger: true })], on which the
    file registers [@fastify/swagger] and [@fastify/swagger-ui] and nothing
    else.  Neither Fastify nor these two plugins define [httpErrors]; the
    file never registers the plugin that does. *)
Definition fastify : FastifyInstance :=
  {| httpErrors := None |}.

(** The same instance had [@fastify/sensible] been registered on it. *)
Definition fastify_with_sensible : FastifyInstance :=
  {| httpErrors := Some sensible |}.

(** What is sent as the body of a reply. *)
Inductive Payload : Type :=
  | Empty
  | Null
  | ErrorObject (error : string)
  | TodoObject (todo : Todo.t)
  | TodoArray (todos : list Todo.t)
  | ErrorPayload (e : Thrown).

Record Reply : Type :=
  { code : Z;
    payload : Payload }.

(** [TodoSchema] on a row: [id] and [title] as they are, [completed] as the
    boolean the stored integer stands for. *)
Definition serializeTodo (row : Row.t) : Todo.t :=
  Todo.mk (Row.id row) (Row.title row) (negb (Row.completed row =? 0)).

(** Fastify's error handler: the status code of the error when it has one
    of 400 or more, 500 otherwise, with the error as the body. *)
Definition errorReply (e : Thrown) : Reply :=
  match e with
  | HttpError c _ =>
      {| code := if 400 <=? c then c else 500; payload := ErrorPayload e |}
  | TypeError => {| code := 500; payload := ErrorPayload e |}
  end.

(** The reply to a request whose handler ran as [h]. *)
Definition respond (h : M Reply) : World → Reply * World :=
  λ w, match h w with
       | (Returned r, w') => (r, w')
       | (Threw e, w') => (errorReply e, w')
       end.

(** A request that has passed the schema validation of its route. *)
Inductive Request : Type :=
  | GetTodos
  | GetTodo (id : jsstring)
  | PostTodos (body : CreateBody.t)
  | PutTodo (id : jsstring) (body : UpdateBody.t)
  | DeleteTodo (id : jsstring).

(** ** The hook and the handlers *)

(** [parseIdHook]: either the hook has sent a reply, or it has overwritten
    [request.params.id] with the number. *)
Definition parseIdHook (raw : jsstring) : Reply + Number :=
  let id := parseInt raw in
  if isNaN id || le_zero id
  then inl {| code := 400; payload := ErrorObject "Invalid ID" |}
  else inr id.

(** A route with [preHandler: parseIdHook]: Fastify does not call the
    handler once the hook has sent a reply. *)
Definition preHandler (raw : jsstring) (handler : Number → M Reply)
  : World → Reply * World :=
  λ w, match parseIdHook raw with
       | inl sent => (sent, w)
       | inr id => respond (handler id) w
       end.

Section Routes.
(** The instance the routes are declared on. *)
Variable app : FastifyInstance.

(** [todo.db] is a file: another connection can write to it between two
    statements of one handler.  [other_writers] is what such writes do. *)
Variable other_writers : Database → Database.

Local Open Scope handler_scope.

Definition between_statements : M unit :=
  λ w, (Returned (), {| db := other_writers (db w); executed := executed w |}).

(** [throw app.httpErrors.make(message)]: reading a member of [undefined]
    throws a [TypeError]. *)
Definition throwHttpError {A} (make : HttpErrors → string → Thrown)
    (message : string) : M A :=
  match httpErrors app with
  | Some errors => throw (make errors message)
  | None => throw TypeError
  end.

(** [GET /todos] *)
Definition getTodos : M Reply :=
  let* rows := select_all in
  ret {| code := 200; payload := TodoArray (serializeTodo <$> rows) |}.

(** [GET /todos/:id] *)
Definition getTodo (id : Number) : M Reply :=
  let* todo := select_by_id id in
  match todo with
  | None => throwHttpError notFound "Todo not found"
  | Some todo =>
      ret {| code := 200; payload := TodoObject (serializeTodo todo) |}
  end.

(** [POST /todos] *)
Definition createTodo (body : CreateBody.t) : M Reply :=
  let title := CreateBody.title body in
  let* newTodo := insert_returning title in
  ret {| code := 201; payload := TodoObject (serializeTodo newTodo) |}.

(** The [updates] and [values] arrays of the update handler, pushed in
    the order of the source. *)
Definition buildUpdates (body : UpdateBody.t) : list Assignment :=
  let updates := [] in
  let updates :=
    match UpdateBody.title body with
    | Some title => updates ++ [SetTitle title]
    | None => updates
    end in
  match UpdateBody.completed body with
  | Some completed =>
      updates ++ [SetCompleted (if completed : bool then 1 else 0)]
  | None => updates
  end.

(** [PUT /todos/:id].  With no field to update the handler returns what
    [selectStmt.get(id)] gives, which is [null] when the row is gone. *)
Definition updateTodo (id : Number) (body : UpdateBody.t) : M Reply :=
  let* found := select_1_by_id id in
  if negb found then throwHttpError notFound "Todo not found"
  else
    between_statements ;;;
    let updates := buildUpdates body in
    if (length updates =? 0)%nat then
      let* current := select_by_id id in
      ret {| code := 200;
             payload := match current with
                        | Some row => TodoObject (serializeTodo row)
                        | None => Null
                        end |}
    else
      let* updatedTodo := update_returning updates id in
      match updatedTodo with
      | None => throwHttpError internalServerError "Failed to update todo"
      | Some row =>
          ret {| code := 200; payload := TodoObject (serializeTodo row) |}
      end.

(** [DELETE /todos/:id] *)
Definition deleteTodo (id : Number) : M Reply :=
  let* changes := delete_by_id id in
  if (changes =? 0)%nat then throwHttpError notFound "Todo not found"
  else ret {| code := 204; payload := Empty |}.

(** The hook and the handler of each route, as Fastify runs them on a
    request that its router has matched to the route. *)
Definition route (req : Request) : World → Reply * World :=
  match req with
  | GetTodos => respond getTodos
  | GetTodo id => preHandler id getTodo
  | PostTodos body => respond (createTodo body)
  | PutTodo id body => preHandler id (λ id, updateTodo id body)
  | DeleteTodo id => preHandler id deleteTodo
  end.
End Routes.

(** No write from another connection. *)
Definition no_other_writer : Database → Database := λ d, d.

(** The routes of [index.ts] on a request the router has matched, when the
    server is the only writer of [todo.db]. *)
Definition serve : Request → World → Reply * World :=
  route fastify no_other_writer.

(** ** The router

    [Fastify({ logger: true })] sets no [maxParamLength], so the router
    keeps its default of 100: a request whose [:id] is longer than that is
    answered by the router with 414, and neither the hook nor the handler
    of the route runs. *)
Definition maxParamLength : nat := 100.

(** The answer to a request: the refusal of the router, whose body is not
    modelled, or the reply of a route. *)
Inductive Answer : Type :=
  | UriTooLong
  | Replied (reply : Reply).

Definition status (answer : Answer) : Z :=
  match answer with
  | UriTooLong => 414
  | Replied reply => code reply
  end.

(** The [:id] of the path of a request, when its route has one. *)
Definition pathParam (req : Request) : option jsstring :=
  match req with
  | GetTodo id | PutTodo id _ | DeleteTodo id => Some id
  | GetTodos | PostTodos _ => None
  end.

Definition paramTooLong (req : Request) : bool :=
  match pathParam req with
  | Some id => (maxParamLength <? length id)%nat
  | None => false
  end.

(** An instance on a request: the router first, then the route. *)
Definition receive (app : FastifyInstance)
    (other_writers : Database → Database) (req : Request)
  : World → Answer * World :=
  λ w, if paramTooLong req then (UriTooLong, w)
       else let '(reply, w') := route app other_writers req w in
            (Replied reply, w').

(** The server of [index.ts] when it is the only writer of [todo.db]. *)
Definition server : Request → World → Answer * World :=
  receive fastify no_other_writer.

(** The server on a database file that did not exist. *)
Definition start : World :=
  {| db := fresh_db; executed := 0 |}.

(** The states the server goes through from [start]. *)
Inductive reachable : World → Prop :=
  | reachable_start : reachable start
  | reachable_serve req w : reachable w → reachable (serve req w).2.

(** ** What the id validation is compared with *)

Definition startsWithDigit (s : jsstring) : bool :=
  match s with
  | c :: _ => isDigit c
  | [] => false
  end.

(** An optional sign in front of the digits. *)
Inductive sign_prefix : jsstring → Z → Prop :=
  | sign_none : sign_prefix [] 1
  | sign_plus : sign_prefix [43%N] 1
  | sign_minus : sign_prefix [45%N] (-1).

(** [leading_integer raw n]: [raw] is white space, an optional sign, a
    non-empty run of decimal digits that the next code unit does not
    continue, and anything after it; [n] is the signed integer the run
    denotes. *)
Inductive leading_integer : jsstring → Z → Prop :=
  | leading_integer_intro ws sg sgn ds rest :
      Forall (λ c, isWhiteSpace c = true) ws →
      sign_prefix sg sgn →
      ds ≠ [] →
      Forall (λ c, isDigit c = true) ds →
      startsWithDigit rest = false →
      leading_integer (ws ++ sg ++ ds ++ rest) (sgn * mathInt ds).

(** The claim's reading of [ParseId], from the specification's words: the
    whole string is a base-10 integer (an optional sign and digits, nothing
    before or after), strictly greater than zero, and not an overflow.  The
    overflow taken here is the widest one: no finite Number holds the
    integer. *)
Definition spec_isInteger (raw : jsstring) : bool :=
  let '(_, rest) := readSign raw in
  bool_decide (rest ≠ []) && forallb isDigit rest.

Definition spec_overflows (n : Z) : bool :=
  match toNumber n with
  | Infinity _ => true
  | _ => false
  end.

Definition spec_ParseId (raw : jsstring) : option Z :=
  if spec_isInteger raw then
    let '(sign, rest) := readSign raw in
    let n := sign * mathInt rest in
    if (0 <? n) && negb (spec_overflows n) then Some n else None
  else None.

(** The reply of the hook to an id it refuses. *)
Definition invalidId : Reply :=
  {| code := 400; payload := ErrorObject "Invalid ID" |}.

(** The error thrown where the source writes
    [throw app.httpErrors.make(message)]. *)
Definition thrownBy (app : FastifyInstance)
    (make : HttpErrors → string → Thrown) (message : string) : Thrown :=
  match httpErrors app with
  | Some errors => make errors message
  | None => TypeError
  end.

(** ** Replies and states the properties name *)

(** A todo and a state to try the routes on. *)
Definition buyMilk : CreateBody.t := CreateBody.mk (lit "Buy milk") [].

(** The same title in a body that also names an [id] and a [completed]. *)
Definition buyMilkDone : CreateBody.t :=
  CreateBody.mk (lit "Buy milk")
    [(lit "id", JNumber 7); (lit "completed", JBool true)].

Definition oneTodo : World := (serve (PostTodos buyMilk) start).2.

(** The reply the specification gives for a missing todo. *)
Definition todoNotFound : Reply :=
  {| code := 404; payload := ErrorObject "Todo not found" |}.

(** The reply of Fastify to the [TypeError]. *)
Definition internalError : Reply :=
  {| code := 500; payload := ErrorPayload TypeError |}.

(** Two todos, to act on one and look at the other. *)
Definition twoTodos : World :=
  (serve (PostTodos (CreateBody.mk (lit "Walk the dog") [])) oneTodo).2.

(** Every stored [completed] is 0 or 1. *)
Definition completed_0_or_1 (d : Database) : Prop :=
  map_Forall (λ _ cols, cols.2 = 0 ∨ cols.2 = 1) (todos d).

Definition oneTodoDone : World :=
  (serve (PutTodo (lit "1") (UpdateBody.mk None (Some true) [])) oneTodo).2.

(** ** Ids as a client writes them, and runs of requests *)

(** The code units of a decimal numeral. *)
Fixpoint uint_codes (d : Decimal.uint) : jsstring :=
  match d with
  | Decimal.Nil => []
  | Decimal.D0 d => 48%N :: uint_codes d
  | Decimal.D1 d => 49%N :: uint_codes d
  | Decimal.D2 d => 50%N :: uint_codes d
  | Decimal.D3 d => 51%N :: uint_codes d
  | Decimal.D4 d => 52%N :: uint_codes d
  | Decimal.D5 d => 53%N :: uint_codes d
  | Decimal.D6 d => 54%N :: uint_codes d
  | Decimal.D7 d => 55%N :: uint_codes d
  | Decimal.D8 d => 56%N :: uint_codes d
  | Decimal.D9 d => 57%N :: uint_codes d
  end.

(** A natural number written in base 10 without leading zeros, the way the
    [id] of a reply reads in JSON and goes into the path of a request. *)
Definition decimal (n : N) : jsstring := uint_codes (N.to_uint n).

(** The state after the server has answered the requests one after the
    other. *)
Definition serve_all (reqs : list Request) (w : World) : World :=
  foldl (λ w req, (serve req w).2) w reqs.

(** Every row id is one that [AUTOINCREMENT] has given out: between 1 and
    the [sqlite_sequence]. *)
Definition ids_in_sequence (d : Database) : Prop :=
  0 ≤ sqlite_sequence d
  ∧ map_Forall (λ k _, 1 ≤ k ≤ sqlite_sequence d) (todos d).

Definition isCreate (req : Request) : bool :=
  match req with
  | PostTodos _ => true
  | _ => false
  end.

(** How many of the requests are a [POST /todos]. *)
Definition creates (reqs : list Request) : nat :=
  length (List.filter isCreate reqs).

(** Another connection that renames every todo. *)
Definition rename_all (title : jsstring) : Database → Database :=
  λ d, {| todos := (λ cols, (title, cols.2)) <$> todos d;
          sqlite_sequence := sqlite_sequence d |}.

(** The todos a reply lists. *)
Definition listed (r : Reply) : list Todo.t :=
  match payload r with
  | TodoArray l => l
  | _ => []
  end.

(** * Properties *)

Example parseInt_42 : parseInt (lit "42") = Finite 42.
Proof. reflexivity. Qed.

Example parseInt_prefix : parseInt (lit "  -17px") = Finite (-17).
Proof. reflexivity. Qed.

Example parseInt_empty : parseInt (lit "") = NaN.
Proof. reflexivity. Qed.

Example toNumber_2_53_1 : toNumber (2 ^ 53 + 1) = Finite (2 ^ 53).
Proof. vm_compute. reflexivity. Qed.

Example toNumber_2_53_3 : toNumber (2 ^ 53 + 3) = Finite (2 ^ 53 + 4).
Proof. vm_compute. reflexivity. Qed.

Example toNumber_ieee_agree :
  Forall (fun n => toNumber n = toNumber_ieee n)
    [0; 1; -1; 42; 2 ^ 53 - 1; 2 ^ 53; 2 ^ 53 + 1; 2 ^ 53 + 2; 2 ^ 53 + 3;
     -(2 ^ 53 + 3); 10 ^ 20 - 1; 10 ^ 23; 3 * 2 ^ 600 + 12345;
     2 ^ 1024 - 2 ^ 971; 2 ^ 1024 - 2 ^ 970 - 1; 2 ^ 1024 - 2 ^ 970;
     2 ^ 1024; -(10 ^ 400)].
Proof.
  repeat (apply List.Forall_cons; [vm_compute; reflexivity |]).
  apply List.Forall_nil.
Qed.

(** ** Numbers and parsing: lemmas *)

Lemma roundMantissa_pos n : 0 < n → 0 < roundMantissa n.
Proof.
  intros Hn. unfold roundMantissa.
  destruct (Z.leb_spec (Z.log2 n + 1 - 53) 0) as [Hs|Hs]; [done|].
  set (s := Z.log2 n + 1 - 53) in *.
  assert (Hq : 1 ≤ Z.shiftr n s).
  { rewrite Z.shiftr_div_pow2 by lia.
    apply Z.div_le_lower_bound; [apply Z.pow_pos_nonneg; lia|].
    rewrite Z.mul_1_r.
    transitivity (2 ^ Z.log2 n).
    - apply Z.pow_le_mono_r; lia.
    - apply Z.log2_spec; lia. }
  rewrite Z.shiftl_mul_pow2 by lia.
  apply Z.mul_pos_pos; [|apply Z.pow_pos_nonneg; lia].
  destruct (_ || _); lia.
Qed.

Lemma isNaN_toNumber n : isNaN (toNumber n) = false.
Proof. unfold toNumber. by destruct (_ <=? _). Qed.

Lemma le_zero_toNumber n : le_zero (toNumber n) = (n <=? 0).
Proof.
  unfold toNumber.
  destruct (Z.lt_trichotomy n 0) as [Hn|[->|Hn]].
  - pose proof (roundMantissa_pos (Z.abs n) ltac:(lia)) as Hm.
    destruct (_ <=? roundMantissa _); simpl.
    + destruct (Z.ltb_spec n 0), (Z.leb_spec n 0); lia || done.
    + destruct (Z.leb_spec (Z.sgn n * roundMantissa (Z.abs n)) 0),
        (Z.leb_spec n 0); try done; nia.
  - reflexivity.
  - pose proof (roundMantissa_pos (Z.abs n) ltac:(lia)) as Hm.
    destruct (_ <=? roundMantissa _); simpl.
    + destruct (Z.ltb_spec n 0), (Z.leb_spec n 0); lia || done.
    + destruct (Z.leb_spec (Z.sgn n * roundMantissa (Z.abs n)) 0),
        (Z.leb_spec n 0); try done; nia.
Qed.

(** Below 2^53 the Number of an integer is that integer. *)
Lemma toNumber_exact n : Z.abs n < 2 ^ 53 → toNumber n = Finite n.
Proof.
  intros Hn. unfold toNumber.
  assert (Hm : roundMantissa (Z.abs n) = Z.abs n).
  { unfold roundMantissa.
    destruct (Z.leb_spec (Z.log2 (Z.abs n) + 1 - 53) 0) as [_|Hs]; [done|].
    assert (Hlog : Z.log2 (Z.abs n) < 53); [|lia].
    destruct (Z.eq_dec (Z.abs n) 0) as [->|Hnz]; [done|].
    apply Z.log2_lt_pow2; lia. }
  rewrite Hm.
  destruct (Z.leb_spec (2 ^ 1024) (Z.abs n)) as [Hbig|_].
  - assert (2 ^ 53 < 2 ^ 1024) by (apply Z.pow_lt_mono_r; lia). lia.
  - f_equal. lia.
Qed.

Lemma isDigit_bounds c : isDigit c = true ↔ (48 ≤ c ≤ 57)%N.
Proof.
  unfold isDigit. rewrite andb_true_iff, !N.leb_le. tauto.
Qed.

Lemma isDigit_not_space c : isDigit c = true → isWhiteSpace c = false.
Proof.
  intros [H1 H2]%isDigit_bounds. unfold isWhiteSpace.
  repeat match goal with
         | |- context [(c =? ?k)%N] =>
             destruct (N.eqb_spec c k); [lia|]
         end.
  destruct (N.leb_spec 8192 c); [lia|]. reflexivity.
Qed.

Lemma trimStart_app ws s :
  Forall (λ c, isWhiteSpace c = true) ws →
  match s with c :: _ => isWhiteSpace c = false | [] => True end →
  trimStart (ws ++ s) = s.
Proof.
  intros Hws Hs. induction Hws as [|c ws Hc _ IH]; simpl.
  - destruct s as [|c s]; [done|]. simpl. by rewrite Hs.
  - by rewrite Hc.
Qed.

Lemma trimStart_split s :
  ∃ ws, s = ws ++ trimStart s
        ∧ Forall (λ c, isWhiteSpace c = true) ws
        ∧ match trimStart s with
          | c :: _ => isWhiteSpace c = false
          | [] => True
          end.
Proof.
  induction s as [|c s (ws & Heq & Hws & Hhd)]; simpl.
  - by exists [].
  - destruct (isWhiteSpace c) eqn:Hc.
    + exists (c :: ws). split_and!; [by rewrite Heq at 1|by constructor|done].
    + by exists [].
Qed.

Lemma takeDigits_app ds rest :
  Forall (λ c, isDigit c = true) ds →
  startsWithDigit rest = false →
  takeDigits (ds ++ rest) = ds.
Proof.
  intros Hds Hrest. induction Hds as [|c ds Hc _ IH]; simpl.
  - destruct rest as [|c rest]; [done|]. simpl in *. by rewrite Hrest.
  - by rewrite Hc, IH.
Qed.

Lemma takeDigits_split s :
  ∃ rest, s = takeDigits s ++ rest
          ∧ Forall (λ c, isDigit c = true) (takeDigits s)
          ∧ startsWithDigit rest = false.
Proof.
  induction s as [|c s (rest & Heq & Hds & Hrest)]; simpl.
  - by exists [].
  - destruct (isDigit c) eqn:Hc.
    + exists rest. split_and!; [by rewrite Heq at 1|by constructor|done].
    + exists (c :: s). by split_and!.
Qed.

(** The sign that [readSign] reads, as a prefix. *)
Lemma readSign_split s :
  ∃ sg, sign_prefix sg (readSign s).1 ∧ s = sg ++ (readSign s).2.
Proof.
  destruct s as [|c s]; [exists []; split; [constructor|done]|].
  simpl. destruct (N.eqb_spec c 45) as [->|]; [|destruct (N.eqb_spec c 43) as [->|]].
  - exists [45%N]. split; [constructor|done].
  - exists [43%N]. split; [constructor|done].
  - exists []. split; [constructor|done].
Qed.

Lemma readSign_app sg sgn ds rest :
  sign_prefix sg sgn → ds ≠ [] →
  Forall (λ c, isDigit c = true) ds →
  readSign (sg ++ ds ++ rest) = (sgn, ds ++ rest).
Proof.
  intros Hsg Hne Hds. destruct Hsg; simpl; try done.
  destruct Hds as [|c ds Hc _]; [done|]. simpl.
  apply isDigit_bounds in Hc.
  destruct (N.eqb_spec c 45); [lia|]. destruct (N.eqb_spec c 43); [lia|]. done.
Qed.

(** [parseInt] reads exactly the leading integer. *)
Lemma parseInt_leading_integer raw n :
  leading_integer raw n → parseInt raw = toNumber n.
Proof.
  intros [ws sg sgn ds rest Hws Hsg Hne Hds Hrest]. unfold parseInt.
  rewrite trimStart_app; [|done|].
  - rewrite (readSign_app sg sgn) by done.
    rewrite takeDigits_app by done. by destruct ds.
  - destruct Hsg; simpl; try done.
    destruct Hds as [|c ds Hc _]; [done|]. simpl. by apply isDigit_not_space.
Qed.

Lemma parseInt_inv raw :
  parseInt raw = NaN ∧ (∀ n, ¬ leading_integer raw n)
  ∨ ∃ n, leading_integer raw n ∧ parseInt raw = toNumber n.
Proof.
  destruct (trimStart_split raw) as (ws & Hraw & Hws & Hhd).
  destruct (readSign_split (trimStart raw)) as (sg & Hsg & Htrim).
  destruct (takeDigits_split (readSign (trimStart raw)).2)
    as (rest & Hrest & Hds & Hnd).
  destruct (takeDigits (readSign (trimStart raw)).2) as [|c ds] eqn:Htake.
  - left. assert (Hnan : parseInt raw = NaN).
    { unfold parseInt. destruct (readSign _) as [sgn r]. simpl in *.
      by rewrite Htake. }
    split; [done|]. intros n Hn.
    apply parseInt_leading_integer in Hn. rewrite Hnan in Hn.
    pose proof (isNaN_toNumber n) as Hno. by rewrite <- Hn in Hno.
  - right. exists ((readSign (trimStart raw)).1 * mathInt (c :: ds)).
    assert (Hlead : leading_integer raw
                      ((readSign (trimStart raw)).1 * mathInt (c :: ds))).
    { rewrite Hraw at 1. rewrite Htrim at 1. rewrite Hrest at 1.
      by constructor. }
    split; [done|]. by apply parseInt_leading_integer.
Qed.

(** Two readings of a string as a leading integer give one Number. *)
Lemma leading_integer_toNumber raw n m :
  leading_integer raw n → leading_integer raw m →
  toNumber n = toNumber m.
Proof.
  intros Hn%parseInt_leading_integer Hm%parseInt_leading_integer. congruence.
Qed.

Lemma foldl_digits_nonneg acc ds :
  0 ≤ acc → Forall (λ c, isDigit c = true) ds →
  0 ≤ foldl (λ a c, 10 * a + digitValue c) acc ds.
Proof.
  intros Hacc Hds. revert acc Hacc.
  induction Hds as [|c ds Hc _ IH]; intros acc Hacc; simpl; [done|].
  apply IH. apply isDigit_bounds in Hc. unfold digitValue. lia.
Qed.

Lemma mathInt_nonneg ds :
  Forall (λ c, isDigit c = true) ds → 0 ≤ mathInt ds.
Proof. intros. by apply foldl_digits_nonneg. Qed.

Lemma toNumber_pos n :
  0 < n →
  toNumber n = Infinity false ∨ ∃ k, 0 < k ∧ toNumber n = Finite k.
Proof.
  intros Hn. unfold toNumber.
  pose proof (roundMantissa_pos (Z.abs n) ltac:(lia)) as Hm.
  destruct (_ <=? roundMantissa _).
  - left. by destruct (Z.ltb_spec n 0); [lia|].
  - right. exists (Z.sgn n * roundMantissa (Z.abs n)). split; [nia|done].
Qed.

Lemma foldl_digits_lt acc ds :
  0 ≤ acc → Forall (λ c, isDigit c = true) ds →
  foldl (λ a c, 10 * a + digitValue c) acc ds
  < (acc + 1) * 10 ^ Z.of_nat (length ds).
Proof.
  intros Hacc Hds. revert acc Hacc.
  induction Hds as [|c ds Hc _ IH]; intros acc Hacc; simpl length.
  - simpl. lia.
  - simpl foldl. apply isDigit_bounds in Hc.
    assert (Hd : 0 ≤ digitValue c ≤ 9) by (unfold digitValue; lia).
    specialize (IH (10 * acc + digitValue c) ltac:(lia)).
    rewrite Nat2Z.inj_succ, Z.pow_succ_r by lia.
    assert (0 < 10 ^ Z.of_nat (length ds)) by (apply Z.pow_pos_nonneg; lia).
    nia.
Qed.

(** A run of digits denotes less than ten to the power of its length. *)
Lemma mathInt_lt ds :
  Forall (λ c, isDigit c = true) ds →
  mathInt ds < 10 ^ Z.of_nat (length ds).
Proof.
  intros Hds. pose proof (foldl_digits_lt 0 ds ltac:(lia) Hds) as Hlt.
  unfold mathInt. lia.
Qed.

Lemma roundMantissa_le n : 0 < n → roundMantissa n ≤ 2 ^ (Z.log2 n + 1).
Proof.
  intros Hn. pose proof (Z.log2_spec n Hn) as [Hlo Hhi].
  rewrite <- Z.add_1_r in Hhi.
  unfold roundMantissa.
  destruct (Z.leb_spec (Z.log2 n + 1 - 53) 0) as [Hs|Hs]; [lia|].
  set (s := Z.log2 n + 1 - 53) in *.
  assert (Hpow : 2 ^ (Z.log2 n + 1) = 2 ^ 53 * 2 ^ s).
  { rewrite <- Z.pow_add_r by lia. f_equal. lia. }
  assert (Hq : Z.shiftr n s < 2 ^ 53).
  { rewrite Z.shiftr_div_pow2 by lia.
    apply Z.div_lt_upper_bound; [apply Z.pow_pos_nonneg; lia|].
    rewrite Z.mul_comm. lia. }
  rewrite Z.shiftl_mul_pow2, Hpow by lia.
  apply Z.mul_le_mono_nonneg_r; [apply Z.pow_nonneg; lia|].
  destruct (_ || _); lia.
Qed.

(** A positive integer below 2^1023 has a finite Number. *)
Lemma toNumber_pos_finite n :
  0 < n < 2 ^ 1023 → ∃ k, 0 < k ∧ toNumber n = Finite k.
Proof.
  intros [Hpos Hlt].
  destruct (toNumber_pos n Hpos) as [Hinf|Hfin]; [|done].
  exfalso. unfold toNumber in Hinf.
  destruct (Z.leb_spec (2 ^ 1024) (roundMantissa (Z.abs n))) as [Hbig|_];
    [|done].
  pose proof (roundMantissa_le (Z.abs n) ltac:(lia)) as Hle.
  assert (Hlog : Z.log2 (Z.abs n) < 1023) by (apply Z.log2_lt_pow2; lia).
  assert (2 ^ (Z.log2 (Z.abs n) + 1) ≤ 2 ^ 1023)
    by (apply Z.pow_le_mono_r; lia).
  assert (2 ^ 1023 < 2 ^ 1024) by (apply Z.pow_lt_mono_r; lia).
  lia.
Qed.

(** The leading integer of a string has at most as many digits as the
    string has code units. *)
Lemma leading_integer_lt raw n :
  leading_integer raw n → Z.abs n < 10 ^ Z.of_nat (length raw).
Proof.
  intros [ws sg sgn ds rest _ Hsg _ Hds _].
  pose proof (mathInt_nonneg ds Hds). pose proof (mathInt_lt ds Hds).
  assert (10 ^ Z.of_nat (length ds)
          ≤ 10 ^ Z.of_nat (length (ws ++ sg ++ ds ++ rest))).
  { apply Z.pow_le_mono_r; [lia|]. rewrite !length_app. lia. }
  destruct Hsg; lia.
Qed.

(** ** The id validation *)

Lemma parseIdHook_cases raw :
  parseIdHook raw = inl invalidId ∧ (∀ n, leading_integer raw n → n ≤ 0)
  ∨ ∃ n, leading_integer raw n ∧ 0 < n ∧ parseIdHook raw = inr (toNumber n).
Proof.
  unfold parseIdHook.
  destruct (parseInt_inv raw) as [[Hnan Hno]|(n & Hn & Hparse)].
  - left. rewrite Hnan. split; [done|]. intros n Hn. by destruct (Hno n).
  - rewrite Hparse, isNaN_toNumber, le_zero_toNumber. simpl.
    destruct (Z.leb_spec n 0) as [Hle|Hlt].
    + left. split; [done|]. intros m Hm.
      pose proof (leading_integer_toNumber _ _ _ Hn Hm) as Heq.
      pose proof (le_zero_toNumber m) as Hm0. rewrite <- Heq in Hm0.
      rewrite le_zero_toNumber in Hm0. symmetry in Hm0.
      destruct (Z.leb_spec n 0), (Z.leb_spec m 0); lia || done.
    + right. by exists n.
Qed.

Lemma preHandler_invalid raw handler w :
  parseIdHook raw = inl invalidId → preHandler raw handler w = (invalidId, w).
Proof. intros H. unfold preHandler. by rewrite H. Qed.

Lemma receive_passes app writers req w :
  paramTooLong req = false →
  receive app writers req w
  = (Replied (route app writers req w).1, (route app writers req w).2).
Proof.
  intros Hlen. unfold receive. rewrite Hlen.
  by destruct (route app writers req w).
Qed.

Lemma receive_refuses app writers req w :
  paramTooLong req = true → receive app writers req w = (UriTooLong, w).
Proof. intros Hlen. unfold receive. by rewrite Hlen. Qed.

Lemma paramTooLong_false (raw : jsstring) :
  (length raw ≤ maxParamLength)%nat →
  (maxParamLength <? length raw)%nat = false.
Proof. intros. apply Nat.ltb_ge. lia. Qed.

(** What the hook hands on for an id the router lets through is a finite
    Number. *)
Lemma parseIdHook_short_finite (raw : jsstring) id :
  (length raw ≤ maxParamLength)%nat →
  parseIdHook raw = inr id →
  ∃ k, 0 < k ∧ id = Finite k.
Proof.
  intros Hlen Hid.
  destruct (parseIdHook_cases raw) as [[Hbad _]|(n & Hn & Hpos & Hok)];
    [congruence|].
  assert (id = toNumber n) as -> by congruence.
  apply toNumber_pos_finite. split; [done|].
  pose proof (leading_integer_lt raw n Hn) as Hlt.
  assert (10 ^ Z.of_nat (length raw) ≤ 10 ^ 100).
  { apply Z.pow_le_mono_r; [lia|]. unfold maxParamLength in Hlen. lia. }
  assert (10 ^ 100 < 2 ^ 1023) by (apply Z.ltb_lt; vm_compute; reflexivity).
  lia.
Qed.



Example spec_ParseId_42 : spec_ParseId (lit "42") = Some 42.
Proof. vm_compute. reflexivity. Qed.

(** ** The table: lemmas *)

Lemma max_rowid_ge (t : gmap Z (jsstring * Z)) k cols :
  t !! k = Some cols → k ≤ max_rowid t.
Proof.
  unfold max_rowid. revert k cols.
  apply (map_fold_weak_ind
           (λ r (m : gmap Z (jsstring * Z)),
              ∀ k cols, m !! k = Some cols → k ≤ r)).
  - intros k cols. by rewrite lookup_empty.
  - intros i x m r _ IH k cols.
    rewrite lookup_insert_Some. intros [[-> _]|[_ Hk]]; [lia|].
    specialize (IH k cols Hk). lia.
Qed.

(** The row id of an insert is not in the table. *)
Lemma next_rowid_fresh d : todos d !! next_rowid d = None.
Proof.
  destruct (todos d !! next_rowid d) as [cols|] eqn:Hk; [|done].
  apply max_rowid_ge in Hk. unfold next_rowid in Hk. lia.
Qed.

(** ** Create *)

(** What [POST /todos] does, on any instance. *)
Lemma createTodo_respond body w :
  respond (createTodo body) w
  = ({| code := 201;
        payload := TodoObject
                     (Todo.mk (next_rowid (db w)) (CreateBody.title body) false) |},
     {| db := {| todos := <[next_rowid (db w) := (CreateBody.title body, 0)]>
                            (todos (db w));
                 sqlite_sequence := next_rowid (db w) |};
        executed := S (executed w) |}).
Proof. reflexivity. Qed.

(** C3.  [POST /todos] with a body that holds a string [title] replies 201
    with the created todo: its [completed] is false whatever else the body
    holds, its [id] is the row id the table gave the new row, and the table
    after the request is the table before it with that one row added, under
    an id that was not in use. *)
Theorem createTodo_inserts_one_row app writers body w :
  ∃ k,
    (route app writers (PostTodos body) w).1
    = {| code := 201;
         payload := TodoObject (Todo.mk k (CreateBody.title body) false) |}
    ∧ todos (db w) !! k = None
    ∧ todos (db (route app writers (PostTodos body) w).2)
      = <[k := (CreateBody.title body, 0)]> (todos (db w))
    ∧ size (todos (db (route app writers (PostTodos body) w).2))
      = S (size (todos (db w))).
Proof.
  exists (next_rowid (db w)). unfold route. rewrite createTodo_respond. simpl.
  split_and!; [done|apply next_rowid_fresh|done|].
  apply map_size_insert_None, next_rowid_fresh.
Qed.

(** C10.  Two bodies of [POST /todos] with the same [title] get the same
    reply and leave the same database, whatever their other members are. *)
Theorem createTodo_depends_on_title_only app writers body1 body2 w :
  CreateBody.title body1 = CreateBody.title body2 →
  route app writers (PostTodos body1) w
  = route app writers (PostTodos body2) w.
Proof.
  intros Htitle. unfold route. rewrite !createTodo_respond. by rewrite Htitle.
Qed.

Lemma createTodo_depends_on_title_only_witness :
  CreateBody.title buyMilkDone = CreateBody.title buyMilk
  ∧ buyMilkDone ≠ buyMilk
  ∧ route fastify no_other_writer (PostTodos buyMilkDone) start
    = route fastify no_other_writer (PostTodos buyMilk) start.
Proof.
  split; [reflexivity|]. split; [discriminate|].
  exact (createTodo_depends_on_title_only fastify no_other_writer
           buyMilkDone buyMilk start eq_refl).
Defined.

(** ** Read one *)

Lemma getTodo_found app k cols w :
  todos (db w) !! k = Some cols →
  respond (getTodo app (Finite k)) w
  = ({| code := 200; payload := TodoObject (serializeTodo (row_at k cols)) |},
     {| db := db w; executed := S (executed w) |}).
Proof.
  intros Hk. unfold respond, getTodo, bind, select_by_id, statement, find_row.
  simpl. by rewrite Hk.
Qed.

Lemma getTodo_missing app id w :
  find_row id (db w) = None →
  respond (getTodo app id) w
  = (errorReply (thrownBy app notFound "Todo not found"),
     {| db := db w; executed := S (executed w) |}).
Proof.
  intros Hk. unfold respond, getTodo, bind, select_by_id, statement.
  simpl. rewrite Hk. unfold throwHttpError, thrownBy.
  by destruct (httpErrors app).
Qed.

(** C7.  After a create, reading the id of the todo that the create
    returned gives that todo back: from the handler, and from the route
    under any raw id the hook reads as that id. *)
Theorem getTodo_after_createTodo app writers body w :
  ∃ created,
    (respond (createTodo body) w).1
    = {| code := 201; payload := TodoObject created |}
    ∧ (respond (getTodo app (Finite (Todo.id created)))
         (respond (createTodo body) w).2).1
      = {| code := 200; payload := TodoObject created |}
    ∧ (∀ raw,
         parseIdHook raw = inr (Finite (Todo.id created)) →
         (route app writers (GetTodo raw)
            (route app writers (PostTodos body) w).2).1
         = {| code := 200; payload := TodoObject created |}).
Proof.
  exists (Todo.mk (next_rowid (db w)) (CreateBody.title body) false).
  assert (Hget :
    (respond (getTodo app (Finite (next_rowid (db w))))
       (respond (createTodo body) w).2).1
    = {| code := 200;
         payload := TodoObject
                      (Todo.mk (next_rowid (db w)) (CreateBody.title body)
                         false) |}).
  { rewrite createTodo_respond.
    rewrite (getTodo_found app _ (CreateBody.title body, 0));
      [done | apply lookup_insert_eq]. }
  split_and!; [by rewrite createTodo_respond|done|].
  intros raw Hid. unfold route, preHandler. by rewrite Hid.
Qed.

(** ** Update and delete: what they reply and what they leave *)

Ltac unfold_handler :=
  unfold respond, updateTodo, deleteTodo, getTodo, between_statements,
    throwHttpError, bind, ret, throw, select_1_by_id, select_by_id,
    update_returning, delete_by_id, statement, find_row, no_other_writer;
  simpl.

Lemma buildUpdates_cases body :
  buildUpdates body
  = match UpdateBody.title body, UpdateBody.completed body with
    | None, None => []
    | Some t, None => [SetTitle t]
    | None, Some b => [SetCompleted (if b then 1 else 0)]
    | Some t, Some b => [SetTitle t; SetCompleted (if b then 1 else 0)]
    end.
Proof.
  unfold buildUpdates.
  by destruct (UpdateBody.title body), (UpdateBody.completed body).
Qed.

(** [PUT /todos/:id] on a row that is there, with no other writer. *)
Lemma updateTodo_found app k cols body w :
  todos (db w) !! k = Some cols →
  respond (updateTodo app no_other_writer (Finite k) body) w
  = ({| code := 200;
        payload := TodoObject
                     (serializeTodo
                        (row_at k (foldl assign cols (buildUpdates body)))) |},
     {| db := match buildUpdates body with
              | [] => db w
              | sets =>
                  {| todos := <[k := foldl assign cols sets]> (todos (db w));
                     sqlite_sequence := sqlite_sequence (db w) |}
              end;
        executed := S (S (executed w)) |}).
Proof.
  intros Hk. unfold_handler. rewrite Hk. simpl.
  destruct (buildUpdates body) as [|a sets] eqn:Hsets; simpl.
  - by rewrite Hk.
  - by rewrite Hk.
Qed.

(** [PUT /todos/:id] when the existence check finds no row. *)
Lemma updateTodo_missing app writers id body w :
  find_row id (db w) = None →
  respond (updateTodo app writers id body) w
  = (errorReply (thrownBy app notFound "Todo not found"),
     {| db := db w; executed := S (executed w) |}).
Proof.
  intros Hk. unfold respond, updateTodo, bind, select_1_by_id, statement.
  simpl. rewrite Hk. simpl.
  unfold throwHttpError, thrownBy. by destruct (httpErrors app).
Qed.

(** [PUT /todos/:id] when the row is there at the check and another
    connection has deleted it before the [UPDATE] runs. *)
Lemma updateTodo_row_deleted_in_between app writers k cols body w :
  todos (db w) !! k = Some cols →
  todos (writers (db w)) !! k = None →
  buildUpdates body ≠ [] →
  respond (updateTodo app writers (Finite k) body) w
  = (errorReply (thrownBy app internalServerError "Failed to update todo"),
     {| db := writers (db w); executed := S (S (executed w)) |}).
Proof.
  intros Hk Hgone Hsets.
  unfold respond, updateTodo, bind, select_1_by_id, update_returning,
    between_statements, statement, find_row.
  simpl. rewrite Hk. simpl.
  destruct (buildUpdates body) as [|a sets]; [done|]. simpl.
  rewrite Hgone. unfold throwHttpError, thrownBy.
  by destruct (httpErrors app).
Qed.

(** The table after [PUT /todos/:id], with no other writer. *)
Lemma updateTodo_todos app id body w :
  todos (db (respond (updateTodo app no_other_writer id body) w).2)
  = match rowid_of id with
    | Some k =>
        match todos (db w) !! k with
        | Some cols =>
            <[k := foldl assign cols (buildUpdates body)]> (todos (db w))
        | None => todos (db w)
        end
    | None => todos (db w)
    end.
Proof.
  destruct id as [|neg|k]; simpl.
  - rewrite updateTodo_missing; [done|]. done.
  - rewrite updateTodo_missing; [done|]. done.
  - destruct (todos (db w) !! k) as [cols|] eqn:Hk.
    + rewrite (updateTodo_found _ _ cols) by done. simpl.
      destruct (buildUpdates body); simpl; [|done].
      by rewrite insert_id.
    + rewrite updateTodo_missing; [done|].
      unfold find_row. simpl. by rewrite Hk.
Qed.

(** [DELETE /todos/:id]: what it replies, by the number of rows the
    statement changed. *)
Lemma deleteTodo_found app k cols w :
  todos (db w) !! k = Some cols →
  respond (deleteTodo app (Finite k)) w
  = ({| code := 204; payload := Empty |},
     {| db := {| todos := delete k (todos (db w));
                 sqlite_sequence := sqlite_sequence (db w) |};
        executed := S (executed w) |}).
Proof. intros Hk. unfold_handler. by rewrite Hk. Qed.

Lemma deleteTodo_missing app id w :
  find_row id (db w) = None →
  respond (deleteTodo app id) w
  = (errorReply (thrownBy app notFound "Todo not found"),
     {| db := db w; executed := S (executed w) |}).
Proof.
  intros Hk. unfold respond, deleteTodo, bind, delete_by_id, statement.
  unfold find_row in Hk. unfold throwHttpError, thrownBy.
  destruct id as [|neg|k]; simpl in *.
  - by destruct (httpErrors app).
  - by destruct (httpErrors app).
  - destruct (todos (db w) !! k); [done|]. simpl.
    by destruct (httpErrors app).
Qed.

Lemma deleteTodo_todos app id w :
  todos (db (respond (deleteTodo app id) w).2)
  = match rowid_of id with
    | Some k => delete k (todos (db w))
    | None => todos (db w)
    end.
Proof.
  destruct id as [|neg|k]; simpl.
  - by rewrite deleteTodo_missing.
  - by rewrite deleteTodo_missing.
  - destruct (todos (db w) !! k) as [cols|] eqn:Hk.
    + by rewrite (deleteTodo_found _ _ cols).
    + rewrite deleteTodo_missing; [|unfold find_row; simpl; by rewrite Hk].
      simpl. by rewrite delete_id.
Qed.

Lemma getTodo_db app id w : db (respond (getTodo app id) w).2 = db w.
Proof.
  unfold respond, getTodo, bind, select_by_id, statement. simpl.
  destruct (find_row id (db w)); simpl; [done|].
  unfold throwHttpError. by destruct (httpErrors app).
Qed.

Lemma getTodos_db w : db (respond getTodos w).2 = db w.
Proof. reflexivity. Qed.

Lemma preHandler_cases raw handler w :
  parseIdHook raw = inl invalidId ∧ preHandler raw handler w = (invalidId, w)
  ∨ ∃ id, parseIdHook raw = inr id
          ∧ preHandler raw handler w = respond (handler id) w.
Proof.
  unfold preHandler.
  destruct (parseIdHook_cases raw) as [[Hbad _]|(n & _ & _ & Hok)].
  - left. by rewrite Hbad.
  - right. exists (toNumber n). by rewrite Hok.
Qed.

(** The scenario of the specification: create, read, complete, delete,
    read again.  The last reply is a 500. *)
Example scenario :
  let create := serve (PostTodos buyMilk) start in
  let read := serve (GetTodo (lit "1")) create.2 in
  let complete :=
    serve (PutTodo (lit "1") (UpdateBody.mk None (Some true) [])) read.2 in
  let remove := serve (DeleteTodo (lit "1")) complete.2 in
  let readAgain := serve (GetTodo (lit "1")) remove.2 in
  [create.1; read.1; complete.1; remove.1; readAgain.1]
  = [ {| code := 201;
         payload := TodoObject (Todo.mk 1 (lit "Buy milk") false) |};
      {| code := 200;
         payload := TodoObject (Todo.mk 1 (lit "Buy milk") false) |};
      {| code := 200;
         payload := TodoObject (Todo.mk 1 (lit "Buy milk") true) |};
      {| code := 204; payload := Empty |};
      internalError ].
Proof. vm_compute. reflexivity. Qed.

(** Were [@fastify/sensible] registered, the three handlers would reply 404
    on a todo that is not there. *)
Lemma missing_with_sensible writers id body w :
  find_row id (db w) = None →
  code (respond (getTodo fastify_with_sensible id) w).1 = 404
  ∧ code (respond (updateTodo fastify_with_sensible writers id body) w).1 = 404
  ∧ code (respond (deleteTodo fastify_with_sensible id) w).1 = 404.
Proof.
  intros Hk.
  by rewrite getTodo_missing, updateTodo_missing, deleteTodo_missing.
Qed.

(** C2: what the code does.  [GET /todos/:id] with a valid id replies 200
    with the todo when the row is there.  When it is not, the handler
    evaluates [fastify.httpErrors.notFound] on an instance that has no
    [httpErrors], and the reply is a 500, not the 404 of the
    specification: so it is for [GET /todos/1] on the empty table. *)
Theorem getTodo_missing_replies_500 :
  (∀ raw k cols w,
     parseIdHook raw = inr (Finite k) →
     todos (db w) !! k = Some cols →
     (serve (GetTodo raw) w).1
     = {| code := 200; payload := TodoObject (serializeTodo (row_at k cols)) |})
  ∧ (∀ raw id w,
       parseIdHook raw = inr id →
       find_row id (db w) = None →
       (serve (GetTodo raw) w).1 = internalError)
  ∧ serve (GetTodo (lit "1")) start
    = (internalError, {| db := fresh_db; executed := 1 |})
  ∧ (serve (GetTodo (lit "1")) start).1 ≠ todoNotFound.
Proof.
  split_and!.
  - intros raw k cols w Hid Hk. unfold serve, route, preHandler.
    rewrite Hid. by rewrite (getTodo_found _ _ cols).
  - intros raw id w Hid Hk. unfold serve, route, preHandler.
    rewrite Hid. by rewrite getTodo_missing.
  - reflexivity.
  - discriminate.
Qed.

(** C5: what the code does.  [PUT /todos/:id] with a valid id, when the
    existence check finds no row, replies 500 and not 404, for the reason
    given at C2.  When the row is there at the check and gone at the
    [UPDATE], the reply is 500; when it is still there, with no other
    writer, the reply is 200 with the updated row. *)
Theorem updateTodo_missing_replies_500 :
  (∀ writers raw id body w,
     parseIdHook raw = inr id →
     find_row id (db w) = None →
     (route fastify writers (PutTodo raw body) w).1 = internalError)
  ∧ (∀ writers raw k cols body w,
       parseIdHook raw = inr (Finite k) →
       todos (db w) !! k = Some cols →
       todos (writers (db w)) !! k = None →
       buildUpdates body ≠ [] →
       code (route fastify writers (PutTodo raw body) w).1 = 500)
  ∧ (∀ raw k cols body w,
       parseIdHook raw = inr (Finite k) →
       todos (db w) !! k = Some cols →
       (serve (PutTodo raw body) w).1
       = {| code := 200;
            payload := TodoObject
                         (serializeTodo
                            (row_at k (foldl assign cols (buildUpdates body)))) |})
  ∧ serve (PutTodo (lit "1") (UpdateBody.mk None (Some true) [])) start
    = (internalError, {| db := fresh_db; executed := 1 |})
  ∧ code (serve (PutTodo (lit "1") (UpdateBody.mk None (Some true) [])) start).1
    ≠ 404.
Proof.
  split_and!.
  - intros writers raw id body w Hid Hk. unfold route, preHandler.
    rewrite Hid. by rewrite updateTodo_missing.
  - intros writers raw k cols body w Hid Hk Hgone Hsets.
    unfold route, preHandler. rewrite Hid.
    by rewrite (updateTodo_row_deleted_in_between _ _ _ cols).
  - intros raw k cols body w Hid Hk. unfold serve, route, preHandler.
    rewrite Hid. by rewrite (updateTodo_found _ _ cols).
  - reflexivity.
  - discriminate.
Qed.

(** C6: what the code does.  [DELETE /todos/:id] with a valid id replies
    204 with an empty body when the statement removed the row.  When it
    changed no row the reply is 500 and not 404, for the reason given at
    C2: deleting the same id twice gives 204 and then 500. *)
Theorem deleteTodo_twice_replies_204_then_500 :
  (∀ raw k cols w,
     parseIdHook raw = inr (Finite k) →
     todos (db w) !! k = Some cols →
     (serve (DeleteTodo raw) w).1 = {| code := 204; payload := Empty |}
     ∧ todos (db (serve (DeleteTodo raw) w).2) = delete k (todos (db w)))
  ∧ (∀ raw id w,
       parseIdHook raw = inr id →
       find_row id (db w) = None →
       serve (DeleteTodo raw) w
       = (internalError, {| db := db w; executed := S (executed w) |}))
  ∧ (serve (DeleteTodo (lit "1")) oneTodo).1
    = {| code := 204; payload := Empty |}
  ∧ (serve (DeleteTodo (lit "1")) (serve (DeleteTodo (lit "1")) oneTodo).2).1
    = internalError
  ∧ (serve (DeleteTodo (lit "1")) (serve (DeleteTodo (lit "1")) oneTodo).2).1
    ≠ todoNotFound.
Proof.
  split_and!.
  - intros raw k cols w Hid Hk. unfold serve, route, preHandler.
    rewrite Hid. by rewrite (deleteTodo_found _ _ cols).
  - intros raw id w Hid Hk. unfold serve, route, preHandler.
    rewrite Hid. by rewrite deleteTodo_missing.
  - vm_compute. reflexivity.
  - vm_compute. reflexivity.
  - vm_compute. discriminate.
Qed.

(** ** Update: the fields it leaves alone *)

(** C4.  On a todo that is there, with a valid id and no other writer,
    [PUT /todos/:id] replies 200 and applies the supplied fields only: with
    [completed] alone the title stays what it was, with [title] alone the
    stored [completed] stays what it was, and with neither the reply is the
    current record, id included, and the database is not changed. *)
Theorem updateTodo_applies_supplied_fields_only
    app raw k title completed body w :
  parseIdHook raw = inr (Finite k) →
  todos (db w) !! k = Some (title, completed) →
  match UpdateBody.title body, UpdateBody.completed body with
  | None, None =>
      (route app no_other_writer (PutTodo raw body) w).1
      = {| code := 200;
           payload := TodoObject (Todo.mk k title (negb (completed =? 0))) |}
      ∧ db (route app no_other_writer (PutTodo raw body) w).2 = db w
  | None, Some b =>
      (route app no_other_writer (PutTodo raw body) w).1
      = {| code := 200; payload := TodoObject (Todo.mk k title b) |}
      ∧ todos (db (route app no_other_writer (PutTodo raw body) w).2) !! k
        = Some (title, if b then 1 else 0)
  | Some title', None =>
      (route app no_other_writer (PutTodo raw body) w).1
      = {| code := 200;
           payload := TodoObject (Todo.mk k title' (negb (completed =? 0))) |}
      ∧ todos (db (route app no_other_writer (PutTodo raw body) w).2) !! k
        = Some (title', completed)
  | Some title', Some b =>
      (route app no_other_writer (PutTodo raw body) w).1
      = {| code := 200; payload := TodoObject (Todo.mk k title' b) |}
      ∧ todos (db (route app no_other_writer (PutTodo raw body) w).2) !! k
        = Some (title', if b then 1 else 0)
  end.
Proof.
  intros Hid Hk. unfold route, preHandler. rewrite Hid.
  rewrite (updateTodo_found _ _ (title, completed)) by done.
  rewrite buildUpdates_cases.
  destruct (UpdateBody.title body) as [title'|],
    (UpdateBody.completed body) as [[]|];
    simpl; (split; [done|]); try apply lookup_insert_eq; done.
Qed.

Lemma updateTodo_applies_supplied_fields_only_witness :
  parseIdHook (lit "1") = inr (Finite 1)
  ∧ todos (db oneTodo) !! 1 = Some (lit "Buy milk", 0)
  ∧ (route fastify no_other_writer
       (PutTodo (lit "1") (UpdateBody.mk None (Some true) [])) oneTodo).1
    = {| code := 200;
         payload := TodoObject (Todo.mk 1 (lit "Buy milk") true) |}
  ∧ todos (db (route fastify no_other_writer
                 (PutTodo (lit "1") (UpdateBody.mk None (Some true) []))
                 oneTodo).2) !! 1
    = Some (lit "Buy milk", 1).
Proof.
  assert (Hid : parseIdHook (lit "1") = inr (Finite 1)) by reflexivity.
  assert (Hrow : todos (db oneTodo) !! 1 = Some (lit "Buy milk", 0))
    by (vm_compute; reflexivity).
  split; [done|]. split; [done|].
  exact (updateTodo_applies_supplied_fields_only fastify (lit "1") 1
           (lit "Buy milk") 0 (UpdateBody.mk None (Some true) []) oneTodo
           Hid Hrow).
Defined.

(** ** Frame *)

(** C8.  A row whose id is not the one a request names is left as it is by
    [PUT /todos/:id] and by [DELETE /todos/:id], and a row that is there is
    left as it is by [POST /todos]. *)
Theorem other_rows_unchanged app writers raw j cols update create w :
  parseIdHook raw ≠ inr (Finite j) →
  todos (db w) !! j = Some cols →
  todos (db (route app no_other_writer (PutTodo raw update) w).2) !! j
  = Some cols
  ∧ todos (db (route app writers (DeleteTodo raw) w).2) !! j = Some cols
  ∧ todos (db (route app writers (PostTodos create) w).2) !! j = Some cols.
Proof.
  intros Hid Hj. split_and!.
  - unfold route.
    destruct (preHandler_cases raw (λ id, updateTodo app no_other_writer id update) w)
      as [[_ ->]|(id & Hok & ->)]; [done|].
    rewrite updateTodo_todos.
    destruct id as [|neg|k]; simpl; try done.
    destruct (todos (db w) !! k) eqn:Hk; [|done].
    rewrite lookup_insert_ne; [done|]. congruence.
  - unfold route.
    destruct (preHandler_cases raw (deleteTodo app) w)
      as [[_ ->]|(id & Hok & ->)]; [done|].
    rewrite deleteTodo_todos.
    destruct id as [|neg|k]; simpl; try done.
    rewrite lookup_delete_ne; [done|]. congruence.
  - unfold route. rewrite createTodo_respond. simpl.
    rewrite lookup_insert_ne; [done|].
    intros Heq. pose proof (next_rowid_fresh (db w)) as Hfresh.
    rewrite Heq in Hfresh. congruence.
Qed.

Lemma other_rows_unchanged_witness :
  parseIdHook (lit "2") ≠ inr (Finite 1)
  ∧ todos (db twoTodos) !! 1 = Some (lit "Buy milk", 0)
  ∧ todos (db (route fastify no_other_writer
                 (PutTodo (lit "2")
                    (UpdateBody.mk (Some (lit "x")) (Some true) []))
                 twoTodos).2) !! 1
    = Some (lit "Buy milk", 0)
  ∧ todos (db (route fastify no_other_writer (DeleteTodo (lit "2"))
                 twoTodos).2) !! 1
    = Some (lit "Buy milk", 0)
  ∧ todos (db (route fastify no_other_writer (PostTodos buyMilk)
                 twoTodos).2) !! 1
    = Some (lit "Buy milk", 0).
Proof.
  assert (Hid : parseIdHook (lit "2") ≠ inr (Finite 1))
    by (vm_compute; discriminate).
  assert (Hrow : todos (db twoTodos) !! 1 = Some (lit "Buy milk", 0))
    by (vm_compute; reflexivity).
  split; [done|]. split; [done|].
  exact (other_rows_unchanged fastify no_other_writer (lit "2") 1
           (lit "Buy milk", 0)
           (UpdateBody.mk (Some (lit "x")) (Some true) []) buyMilk twoTodos
           Hid Hrow).
Defined.

Lemma assign_completed_0_or_1 cols body :
  cols.2 = 0 ∨ cols.2 = 1 →
  (foldl assign cols (buildUpdates body)).2 = 0
  ∨ (foldl assign cols (buildUpdates body)).2 = 1.
Proof.
  intros Hc. rewrite buildUpdates_cases.
  destruct (UpdateBody.title body), (UpdateBody.completed body) as [[]|];
    simpl; auto.
Qed.

Lemma serve_completed_0_or_1 req w :
  completed_0_or_1 (db w) → completed_0_or_1 (db (serve req w).2).
Proof.
  unfold completed_0_or_1. intros Hinv.
  destruct req as [|raw|body|raw body|raw]; unfold serve, route.
  - by rewrite getTodos_db.
  - destruct (preHandler_cases raw (getTodo fastify) w)
      as [[_ ->]|(id & _ & ->)]; [done|]. by rewrite getTodo_db.
  - rewrite createTodo_respond. simpl.
    apply map_Forall_insert_2; [by left|done].
  - destruct (preHandler_cases raw (λ id, updateTodo fastify no_other_writer id body) w)
      as [[_ ->]|(id & _ & ->)]; [done|].
    rewrite updateTodo_todos.
    destruct (rowid_of id) as [k|]; [|done].
    destruct (todos (db w) !! k) as [cols|] eqn:Hk; [|done].
    apply map_Forall_insert_2; [|done].
    apply assign_completed_0_or_1. by apply (Hinv k).
  - destruct (preHandler_cases raw (deleteTodo fastify) w)
      as [[_ ->]|(id & _ & ->)]; [done|].
    rewrite deleteTodo_todos.
    destruct (rowid_of id) as [k|]; [|done].
    by apply map_Forall_delete.
Qed.

(** C9.  In every state the server reaches from an empty table, the
    [completed] column of every row holds 0 or 1: a create stores 0 in the
    row it adds, and an update that is given a boolean stores 1 for true
    and 0 for false. *)
Theorem reachable_completed_0_or_1 w :
  reachable w →
  (∀ k title completed,
     todos (db w) !! k = Some (title, completed) →
     completed = 0 ∨ completed = 1)
  ∧ (∀ body,
       ∃ k, todos (db w) !! k = None
            ∧ todos (db (serve (PostTodos body) w).2) !! k
              = Some (CreateBody.title body, 0))
  ∧ (∀ raw k body b,
       parseIdHook raw = inr (Finite k) →
       is_Some (todos (db w) !! k) →
       UpdateBody.completed body = Some b →
       snd <$> todos (db (serve (PutTodo raw body) w).2) !! k
       = Some (if b then 1 else 0)).
Proof.
  intros Hreach. split_and!.
  - assert (Hinv : completed_0_or_1 (db w)).
    { induction Hreach as [|req w _ IH].
      - apply map_Forall_empty.
      - by apply serve_completed_0_or_1. }
    intros k title completed Hk. apply (Hinv k (title, completed) Hk).
  - intros body. exists (next_rowid (db w)). split; [apply next_rowid_fresh|].
    unfold serve, route. rewrite createTodo_respond. simpl.
    apply lookup_insert_eq.
  - intros raw k body b Hid [cols Hk] Hb. unfold serve, route, preHandler.
    rewrite Hid, updateTodo_todos. simpl. rewrite Hk, lookup_insert_eq.
    rewrite buildUpdates_cases, Hb.
    by destruct (UpdateBody.title body).
Qed.

Lemma reachable_completed_0_or_1_witness :
  reachable oneTodoDone
  ∧ todos (db oneTodoDone) !! 1 = Some (lit "Buy milk", 1)
  ∧ ((1 : Z) = 0 ∨ (1 : Z) = 1).
Proof.
  assert (Hreach : reachable oneTodoDone)
    by apply reachable_serve, reachable_serve, reachable_start.
  assert (Hrow : todos (db oneTodoDone) !! 1 = Some (lit "Buy milk", 1))
    by (vm_compute; reflexivity).
  split_and!; [done..|].
  exact (proj1 (reachable_completed_0_or_1 oneTodoDone Hreach)
           1 (lit "Buy milk") 1 Hrow).
Defined.

(** * Further properties of the hook, the handlers and the table *)

(** ** The hook on the strings a client sends *)

(** X4.  What a handler behind the hook is called with: a strictly positive
    integer or plus infinity, and never [NaN], zero or a negative number. *)
Theorem parseIdHook_hands_on_positive raw id :
  parseIdHook raw = inr id →
  id = Infinity false ∨ ∃ k, 0 < k ∧ id = Finite k.
Proof.
  intros Hid.
  destruct (parseIdHook_cases raw) as [[Hbad _]|(n & _ & Hpos & Hok)];
    [congruence|].
  assert (id = toNumber n) as -> by congruence.
  by apply toNumber_pos.
Qed.

Lemma parseIdHook_hands_on_positive_witness :
  parseIdHook (lit "42abc") = inr (Finite 42)
  ∧ (Finite 42 = Infinity false ∨ ∃ k, 0 < k ∧ Finite 42 = Finite k).
Proof.
  assert (Hid : parseIdHook (lit "42abc") = inr (Finite 42)) by reflexivity.
  split; [done|].
  exact (parseIdHook_hands_on_positive (lit "42abc") (Finite 42) Hid).
Defined.

Lemma trimStart_spaces ws s :
  Forall (λ c, isWhiteSpace c = true) ws →
  trimStart (ws ++ s) = trimStart s.
Proof.
  intros Hws. induction Hws as [|c ws Hc _ IH]; simpl; [done|].
  by rewrite Hc.
Qed.

Lemma takeDigits_digits s : Forall (λ c, isDigit c = true) (takeDigits s).
Proof. by destruct (takeDigits_split s) as (? & _ & ? & _). Qed.

(** X5.  White space in front of the id and anything after its digits do not
    change what the hook answers. *)
Theorem parseIdHook_ignores_space_and_tail ws sg sgn ds rest :
  Forall (λ c, isWhiteSpace c = true) ws →
  sign_prefix sg sgn →
  ds ≠ [] →
  Forall (λ c, isDigit c = true) ds →
  startsWithDigit rest = false →
  parseIdHook (ws ++ sg ++ ds ++ rest) = parseIdHook (sg ++ ds).
Proof.
  intros Hws Hsg Hne Hds Hrest. unfold parseIdHook.
  rewrite (parseInt_leading_integer _ (sgn * mathInt ds)) by by constructor.
  rewrite (parseInt_leading_integer (sg ++ ds) (sgn * mathInt ds)); [done|].
  pose proof (leading_integer_intro [] sg sgn ds [] ltac:(constructor)
                Hsg Hne Hds eq_refl) as Hlead.
  simpl in Hlead. by rewrite app_nil_r in Hlead.
Qed.

Lemma parseIdHook_ignores_space_and_tail_witness :
  parseIdHook (lit "  " ++ lit "" ++ lit "12" ++ lit ".5e3/..")
  = parseIdHook (lit "" ++ lit "12").
Proof.
  apply (parseIdHook_ignores_space_and_tail (lit "  ") (lit "") 1 (lit "12")
           (lit ".5e3/..")).
  - repeat constructor.
  - constructor.
  - discriminate.
  - repeat constructor.
  - reflexivity.
Defined.


(** X6.  An id whose first code unit after the white space is a minus sign is
    refused, whatever follows: a negative integer, [-0], or no digit at
    all. *)
Theorem parseIdHook_refuses_minus ws s :
  Forall (λ c, isWhiteSpace c = true) ws →
  parseIdHook (ws ++ 45%N :: s) = inl invalidId.
Proof.
  intros Hws. unfold parseIdHook, parseInt.
  rewrite trimStart_app by done. simpl.
  pose proof (takeDigits_digits s) as Hds.
  destruct (takeDigits s) as [|c ds] eqn:Htake; [done|].
  rewrite isNaN_toNumber, le_zero_toNumber. simpl.
  pose proof (mathInt_nonneg (c :: ds) Hds) as Hnn.
  destruct (Z.leb_spec (-1 * mathInt (c :: ds)) 0); [done|lia].
Qed.

Lemma parseIdHook_refuses_minus_witness :
  parseIdHook (lit " " ++ 45%N :: lit "5") = inl invalidId.
Proof.
  apply (parseIdHook_refuses_minus (lit " ") (lit "5")).
  repeat constructor.
Defined.

Lemma uint_codes_digits d : Forall (λ c, isDigit c = true) (uint_codes d).
Proof. induction d; simpl; by constructor. Qed.

Lemma of_uint_acc_codes d acc :
  Z.pos (Pos.of_uint_acc d acc)
  = foldl (λ a c, 10 * a + digitValue c) (Z.pos acc) (uint_codes d).
Proof.
  revert acc. induction d as [|d IH|d IH|d IH|d IH|d IH|d IH|d IH|d IH|d IH|d IH];
    intros acc; simpl; [done|..]; rewrite IH; f_equal; unfold digitValue; lia.
Qed.

Lemma of_uint_codes d : Z.of_N (Pos.of_uint d) = mathInt (uint_codes d).
Proof.
  unfold mathInt.
  induction d as [|d IH|d IH|d IH|d IH|d IH|d IH|d IH|d IH|d IH|d IH];
    simpl; [done|by rewrite IH|..]; by rewrite of_uint_acc_codes.
Qed.

Lemma mathInt_decimal n : mathInt (decimal n) = Z.of_N n.
Proof.
  unfold decimal. rewrite <- of_uint_codes.
  change (Pos.of_uint (N.to_uint n)) with (N.of_uint (N.to_uint n)).
  by rewrite DecimalN.Unsigned.of_to.
Qed.

Lemma decimal_nonempty n : decimal n ≠ [].
Proof.
  unfold decimal. destruct n as [|p]; [done|]. simpl.
  pose proof (DecimalPos.Unsigned.to_uint_nonnil p) as Hnil.
  by destruct (Pos.to_uint p).
Qed.

Lemma leading_integer_decimal n : leading_integer (decimal n) (Z.of_N n).
Proof.
  pose proof (leading_integer_intro [] [] 1 (decimal n) []
                ltac:(constructor) sign_none (decimal_nonempty n)
                (uint_codes_digits _) eq_refl) as Hlead.
  simpl in Hlead. rewrite app_nil_r, mathInt_decimal in Hlead.
  by destruct (Z.of_N n).
Qed.

Lemma parseIdHook_leading_integer_exact raw n :
  leading_integer raw n → 0 < n < 2 ^ 53 → parseIdHook raw = inr (Finite n).
Proof.
  intros Hn Hpos.
  destruct (parseIdHook_cases raw) as [[_ Hle]|(m & Hm & _ & ->)].
  - specialize (Hle n Hn). lia.
  - rewrite (leading_integer_toNumber raw m n) by done.
    by rewrite toNumber_exact by lia.
Qed.

(** X7.  [parseInt] reads the decimal numeral of a natural number back as the
    Number of that number; the hook refuses ["0"] and hands on every
    integer from 1 to 2^53 - 1 as itself. *)
Theorem parseInt_decimal n :
  parseInt (decimal n) = toNumber (Z.of_N n)
  ∧ parseIdHook (decimal 0) = inl invalidId
  ∧ ((0 < n < 2 ^ 53)%N → parseIdHook (decimal n) = inr (Finite (Z.of_N n))).
Proof.
  split_and!.
  - apply parseInt_leading_integer, leading_integer_decimal.
  - reflexivity.
  - intros Hn. apply parseIdHook_leading_integer_exact.
    + apply leading_integer_decimal.
    + change (2 ^ 53) with (Z.of_N (2 ^ 53)). lia.
Qed.

(** ** The list of todos *)

Lemma rowid_le_trans : Transitive rowid_le.
Proof. intros a b c. unfold rowid_le. lia. Qed.

Lemma rowid_le_total : Total rowid_le.
Proof. intros a b. unfold rowid_le. lia. Qed.

(** The rows of a table scan: each row of the table once, by growing id. *)
Lemma sorted_rows_spec (m : gmap Z (jsstring * Z)) :
  merge_sort rowid_le (map_to_list m) ≡ₚ map_to_list m
  ∧ StronglySorted rowid_le (merge_sort rowid_le (map_to_list m)).
Proof.
  split; [apply merge_sort_Permutation|].
  apply (@StronglySorted_merge_sort _ _ _ rowid_le_trans rowid_le_total).
Qed.

Lemma strictly_sorted_keys (l : list (Z * (jsstring * Z))) :
  NoDup l.*1 → StronglySorted rowid_le l → StronglySorted Z.lt l.*1.
Proof.
  induction l as [|[k cols] l IH]; simpl; [constructor|].
  intros [Hk Hnd]%NoDup_cons [Hall Hsorted]%StronglySorted_cons.
  apply StronglySorted_cons. split; [|by apply IH].
  rewrite Forall_forall in Hall. apply Forall_forall.
  intros j [[j' cols'] [-> Hin]]%list_elem_of_fmap. simpl.
  specialize (Hall _ Hin). unfold rowid_le in Hall. simpl in Hall.
  assert (k ≠ j'); [|lia].
  intros ->. apply Hk. apply list_elem_of_fmap. by exists (j', cols').
Qed.

Lemma all_rows_ids d :
  Row.id <$> all_rows d = (merge_sort rowid_le (map_to_list (todos d))).*1.
Proof. unfold all_rows. rewrite <- list_fmap_compose. done. Qed.

Lemma serializeTodo_ids (rows : list Row.t) :
  Todo.id <$> (serializeTodo <$> rows) = Row.id <$> rows.
Proof. rewrite <- list_fmap_compose. done. Qed.

Lemma getTodos_respond w :
  respond getTodos w
  = ({| code := 200; payload := TodoArray (serializeTodo <$> all_rows (db w)) |},
     {| db := db w; executed := S (executed w) |}).
Proof. reflexivity. Qed.

(** X1.  [GET /todos] replies 200 with every row of the table exactly once, as a
    todo, by growing id, and leaves the database as it is. *)
Theorem getTodos_lists_the_table app writers w :
  code (route app writers GetTodos w).1 = 200
  ∧ payload (route app writers GetTodos w).1
    = TodoArray (listed (route app writers GetTodos w).1)
  ∧ (∀ t, t ∈ listed (route app writers GetTodos w).1
          ↔ ∃ k cols, todos (db w) !! k = Some cols
                      ∧ t = serializeTodo (row_at k cols))
  ∧ length (listed (route app writers GetTodos w).1) = size (todos (db w))
  ∧ StronglySorted Z.lt (Todo.id <$> listed (route app writers GetTodos w).1)
  ∧ db (route app writers GetTodos w).2 = db w.
Proof.
  unfold route. rewrite getTodos_respond. unfold listed. simpl.
  destruct (sorted_rows_spec (todos (db w))) as [Hperm Hsorted].
  split_and!; try done.
  - intros t. unfold all_rows. rewrite <- list_fmap_compose.
    rewrite list_elem_of_fmap. split.
    + intros [[k cols] [-> Hin]]. rewrite Hperm in Hin.
      apply elem_of_map_to_list in Hin. by exists k, cols.
    + intros (k & cols & Hk & ->). exists (k, cols). split; [done|].
      rewrite Hperm. by apply elem_of_map_to_list.
  - unfold all_rows. rewrite !length_fmap, Hperm. apply length_map_to_list.
  - rewrite serializeTodo_ids, all_rows_ids.
    apply strictly_sorted_keys; [|done].
    rewrite Hperm. apply NoDup_fst_map_to_list.
Qed.

(** X2.  On an empty table [GET /todos] replies 200 with the empty array. *)
Theorem getTodos_empty_table app writers w :
  todos (db w) = ∅ →
  (route app writers GetTodos w).1 = {| code := 200; payload := TodoArray [] |}.
Proof.
  intros Hempty. unfold route. rewrite getTodos_respond. simpl.
  unfold all_rows. rewrite Hempty, map_to_list_empty. done.
Qed.

Lemma getTodos_empty_table_witness :
  todos (db start) = ∅
  ∧ (route fastify no_other_writer GetTodos start).1
    = {| code := 200; payload := TodoArray [] |}.
Proof.
  split; [reflexivity|].
  exact (getTodos_empty_table fastify no_other_writer start eq_refl).
Defined.

Lemma rows_after_insert (m : gmap Z (jsstring * Z)) k cols :
  (∀ j c, m !! j = Some c → j < k) →
  merge_sort rowid_le (map_to_list (<[k := cols]> m))
  = merge_sort rowid_le (map_to_list m) ++ [(k, cols)].
Proof.
  intros Hmax.
  assert (Hfresh : m !! k = None).
  { destruct (m !! k) as [c|] eqn:Hk; [|done]. specialize (Hmax k c Hk). lia. }
  destruct (sorted_rows_spec m) as [Hperm Hsorted].
  destruct (sorted_rows_spec (<[k := cols]> m)) as [Hperm' Hsorted'].
  apply (StronglySorted_unique_strong rowid_le); [|done| |].
  - intros [j1 c1] [j2 c2] Hin1 Hin2 Hle1 Hle2.
    unfold rowid_le in *. simpl in *. assert (j1 = j2) as -> by lia.
    rewrite Hperm' in Hin1. apply elem_of_map_to_list in Hin1.
    assert ((j2, c2) ∈ map_to_list (<[k := cols]> m)) as Hin2'.
    { rewrite map_to_list_insert by done.
      apply elem_of_app in Hin2 as [Hin2|Hin2%list_elem_of_singleton].
      - right. by rewrite <- Hperm.
      - rewrite Hin2. left. }
    apply elem_of_map_to_list in Hin2'. congruence.
  - apply StronglySorted_app_2; [|done|repeat constructor].
    intros [j c] x Hin ->%list_elem_of_singleton.
    rewrite Hperm in Hin. apply elem_of_map_to_list in Hin.
    specialize (Hmax j c Hin). unfold rowid_le. simpl. lia.
  - rewrite Hperm', map_to_list_insert by done.
    rewrite Hperm. by rewrite Permutation_cons_append.
Qed.

(** X3.  [GET /todos] after a [POST /todos] lists what it listed before,
    followed by the created todo. *)
Theorem getTodos_after_createTodo app writers body w :
  ∃ created,
    payload (route app writers (PostTodos body) w).1 = TodoObject created
    ∧ listed (route app writers GetTodos
                (route app writers (PostTodos body) w).2).1
      = listed (route app writers GetTodos w).1 ++ [created].
Proof.
  exists (Todo.mk (next_rowid (db w)) (CreateBody.title body) false).
  unfold route. rewrite createTodo_respond, !getTodos_respond.
  unfold listed, all_rows. simpl. split; [done|].
  rewrite rows_after_insert.
  - by rewrite !fmap_app.
  - intros j c Hj. apply max_rowid_ge in Hj. unfold next_rowid. lia.
Qed.

(** ** Row ids *)

Lemma serve_sqlite_sequence req w :
  sqlite_sequence (db (serve req w).2)
  = match req with
    | PostTodos _ => next_rowid (db w)
    | _ => sqlite_sequence (db w)
    end.
Proof.
  destruct req as [|raw|body|raw body|raw]; unfold serve, route; try done.
  - destruct (preHandler_cases raw (getTodo fastify) w)
      as [[_ ->]|(id & _ & ->)]; [done|]. by rewrite getTodo_db.
  - destruct (preHandler_cases raw
                (λ id, updateTodo fastify no_other_writer id body) w)
      as [[_ ->]|(id & _ & ->)]; [done|].
    destruct (find_row id (db w)) as [row|] eqn:Hrow.
    + destruct id as [|neg|k]; try done.
      unfold find_row in Hrow. simpl in Hrow.
      destruct (todos (db w) !! k) as [cols|] eqn:Hk; [|done].
      rewrite (updateTodo_found _ _ cols) by done. simpl.
      by destruct (buildUpdates body).
    + by rewrite updateTodo_missing.
  - destruct (preHandler_cases raw (deleteTodo fastify) w)
      as [[_ ->]|(id & _ & ->)]; [done|].
    destruct (find_row id (db w)) as [row|] eqn:Hrow.
    + destruct id as [|neg|k]; try done.
      unfold find_row in Hrow. simpl in Hrow.
      destruct (todos (db w) !! k) as [cols|] eqn:Hk; [|done].
      by rewrite (deleteTodo_found _ _ cols).
    + by rewrite deleteTodo_missing.
Qed.

Lemma serve_todos req w :
  todos (db (serve req w).2)
  = match req with
    | GetTodos | GetTodo _ => todos (db w)
    | PostTodos body =>
        <[next_rowid (db w) := (CreateBody.title body, 0)]> (todos (db w))
    | PutTodo raw body =>
        match parseIdHook raw with
        | inr (Finite k) =>
            match todos (db w) !! k with
            | Some cols =>
                <[k := foldl assign cols (buildUpdates body)]> (todos (db w))
            | None => todos (db w)
            end
        | _ => todos (db w)
        end
    | DeleteTodo raw =>
        match parseIdHook raw with
        | inr (Finite k) => delete k (todos (db w))
        | _ => todos (db w)
        end
    end.
Proof.
  destruct req as [|raw|body|raw body|raw]; unfold serve, route; try done.
  - destruct (preHandler_cases raw (getTodo fastify) w)
      as [[_ ->]|(id & _ & ->)]; [done|]. by rewrite getTodo_db.
  - destruct (preHandler_cases raw
                (λ id, updateTodo fastify no_other_writer id body) w)
      as [[-> ->]|(id & -> & ->)]; [done|].
    rewrite updateTodo_todos. by destruct id.
  - destruct (preHandler_cases raw (deleteTodo fastify) w)
      as [[-> ->]|(id & -> & ->)]; [done|].
    rewrite deleteTodo_todos. by destruct id.
Qed.

Lemma next_rowid_in_sequence d :
  ids_in_sequence d → next_rowid d = sqlite_sequence d + 1.
Proof.
  intros [Hseq Hids]. unfold next_rowid.
  assert (max_rowid (todos d) ≤ sqlite_sequence d); [|lia].
  unfold max_rowid.
  apply (map_fold_weak_ind
           (λ r (m : gmap Z (jsstring * Z)),
              map_Forall (λ k _, 1 ≤ k ≤ sqlite_sequence d) m →
              r ≤ sqlite_sequence d)); [done| |done].
  intros k cols m r Hk IH Hall.
  apply map_Forall_insert in Hall as [Hkseq Hall]; [|done].
  specialize (IH Hall). lia.
Qed.

Lemma serve_ids_in_sequence req w :
  ids_in_sequence (db w) → ids_in_sequence (db (serve req w).2).
Proof.
  intros Hinv. pose proof (next_rowid_in_sequence _ Hinv) as Hnext.
  destruct Hinv as [Hseq Hids]. unfold ids_in_sequence.
  rewrite serve_sqlite_sequence, serve_todos.
  destruct req as [|raw|body|raw body|raw]; try done.
  - split; [lia|]. apply map_Forall_insert_2; [lia|].
    intros k cols Hk. specialize (Hids k cols Hk). simpl in Hids. lia.
  - split; [done|].
    destruct (parseIdHook raw) as [|[|neg|k]]; try done.
    destruct (todos (db w) !! k) as [cols|] eqn:Hk; [|done].
    apply map_Forall_insert_2; [|done]. by apply (Hids k cols).
  - split; [done|].
    destruct (parseIdHook raw) as [|[|neg|k]]; try done.
    by apply map_Forall_delete.
Qed.

Lemma reachable_ids_in_sequence w : reachable w → ids_in_sequence (db w).
Proof.
  induction 1 as [|req w _ IH].
  - split; [done|]. apply map_Forall_empty.
  - by apply serve_ids_in_sequence.
Qed.

Lemma serve_all_snoc reqs req w :
  serve_all (reqs ++ [req]) w = (serve req (serve_all reqs w)).2.
Proof. unfold serve_all. by rewrite foldl_app. Qed.

Lemma serve_all_app reqs1 reqs2 w :
  serve_all (reqs1 ++ reqs2) w = serve_all reqs2 (serve_all reqs1 w).
Proof. unfold serve_all. by rewrite foldl_app. Qed.

Lemma creates_snoc reqs req :
  creates (reqs ++ [req])
  = (creates reqs + if isCreate req then 1 else 0)%nat.
Proof.
  unfold creates. rewrite List.filter_app, length_app. simpl.
  by destruct (isCreate req).
Qed.

Lemma creates_app_le reqs1 reqs2 :
  (creates reqs1 ≤ creates (reqs1 ++ reqs2))%nat.
Proof. unfold creates. rewrite List.filter_app, length_app. lia. Qed.

Lemma reachable_serve_all reqs w : reachable w → reachable (serve_all reqs w).
Proof.
  intros Hw. induction reqs as [|req reqs IH] using rev_ind; [done|].
  rewrite serve_all_snoc. by constructor.
Qed.

Lemma serve_all_sqlite_sequence reqs :
  sqlite_sequence (db (serve_all reqs start)) = Z.of_nat (creates reqs).
Proof.
  induction reqs as [|req reqs IH] using rev_ind; [done|].
  rewrite serve_all_snoc, serve_sqlite_sequence, creates_snoc.
  pose proof (reachable_ids_in_sequence _
                (reachable_serve_all reqs start reachable_start)) as Hinv.
  apply next_rowid_in_sequence in Hinv.
  destruct req; simpl; lia.
Qed.

Lemma serve_all_ids reqs :
  sqlite_sequence (db (serve_all reqs start)) = Z.of_nat (creates reqs)
  ∧ (∀ k cols,
       todos (db (serve_all reqs start)) !! k = Some cols →
       1 ≤ k ≤ Z.of_nat (creates reqs))
  ∧ next_rowid (db (serve_all reqs start)) = Z.of_nat (creates reqs) + 1.
Proof.
  pose proof (reachable_ids_in_sequence _
                (reachable_serve_all reqs start reachable_start)) as Hinv.
  pose proof (serve_all_sqlite_sequence reqs) as Hseq.
  split_and!; [done| |].
  - intros k cols Hk. destruct Hinv as [_ Hids].
    specialize (Hids k cols Hk). simpl in Hids. lia.
  - by rewrite (next_rowid_in_sequence _ Hinv), Hseq.
Qed.

(** X8.  After any requests on a table that was empty, [sqlite_sequence] holds
    the number of todos created so far, the row ids lie between 1 and that
    number, and the next create is given that number plus one: the first
    todo gets id 1 and ids go up by one, whatever was deleted in between. *)
Theorem ids_count_creates reqs :
  sqlite_sequence (db (serve_all reqs start)) = Z.of_nat (creates reqs)
  ∧ (∀ k cols,
       todos (db (serve_all reqs start)) !! k = Some cols →
       1 ≤ k ≤ Z.of_nat (creates reqs))
  ∧ (∀ body,
       payload (serve (PostTodos body) (serve_all reqs start)).1
       = TodoObject
           (Todo.mk (Z.of_nat (creates reqs) + 1) (CreateBody.title body)
              false)).
Proof.
  destruct (serve_all_ids reqs) as (Hseq & Hids & Hnext).
  split_and!; [done..|].
  intros body. unfold serve, route. rewrite createTodo_respond. simpl.
  by rewrite Hnext.
Qed.

(** X9.  An id is never given twice: a todo created after any further requests
    gets an id above that of every todo that was ever in the table, also
    of those deleted since. *)
Theorem created_id_is_never_reused reqs1 reqs2 k cols body :
  todos (db (serve_all reqs1 start)) !! k = Some cols →
  ∃ k',
    k < k'
    ∧ payload (serve (PostTodos body) (serve_all (reqs1 ++ reqs2) start)).1
      = TodoObject (Todo.mk k' (CreateBody.title body) false).
Proof.
  intros Hk.
  destruct (serve_all_ids reqs1) as (_ & Hids & _).
  destruct (serve_all_ids (reqs1 ++ reqs2)) as (_ & _ & Hnext).
  exists (Z.of_nat (creates (reqs1 ++ reqs2)) + 1). split.
  - specialize (Hids k cols Hk).
    pose proof (creates_app_le reqs1 reqs2). lia.
  - unfold serve, route. rewrite createTodo_respond. simpl. by rewrite Hnext.
Qed.

Lemma created_id_is_never_reused_witness :
  todos (db (serve_all [PostTodos buyMilk] start)) !! 1
  = Some (lit "Buy milk", 0)
  ∧ ∃ k',
      1 < k'
      ∧ payload (serve (PostTodos buyMilk)
                   (serve_all ([PostTodos buyMilk] ++ [DeleteTodo (lit "1")])
                      start)).1
        = TodoObject (Todo.mk k' (CreateBody.title buyMilk) false).
Proof.
  assert (Hrow : todos (db (serve_all [PostTodos buyMilk] start)) !! 1
                 = Some (lit "Buy milk", 0)) by (vm_compute; reflexivity).
  split; [done|].
  exact (created_id_is_never_reused [PostTodos buyMilk]
           [DeleteTodo (lit "1")] 1 (lit "Buy milk", 0) buyMilk Hrow).
Defined.

(** X10.  The todo a create returns can be read back under its id written in
    decimal, as long as fewer than 2^53 - 1 todos were created before. *)
Theorem getTodo_by_decimal_id reqs body :
  Z.of_nat (creates reqs) + 1 < 2 ^ 53 →
  ∃ created,
    (serve (PostTodos body) (serve_all reqs start)).1
    = {| code := 201; payload := TodoObject created |}
    ∧ (serve (GetTodo (decimal (Z.to_N (Todo.id created))))
         (serve (PostTodos body) (serve_all reqs start)).2).1
      = {| code := 200; payload := TodoObject created |}.
Proof.
  intros Hsmall. destruct (serve_all_ids reqs) as (_ & _ & Hnext).
  set (w := serve_all reqs start) in *.
  exists (Todo.mk (next_rowid (db w)) (CreateBody.title body) false).
  unfold serve, route. rewrite createTodo_respond. simpl. split; [done|].
  unfold preHandler.
  rewrite (parseIdHook_leading_integer_exact _ (next_rowid (db w))).
  - rewrite (getTodo_found _ _ (CreateBody.title body, 0));
      [done | apply lookup_insert_eq].
  - pose proof (leading_integer_decimal (Z.to_N (next_rowid (db w)))) as Hl.
    by rewrite Z2N.id in Hl by lia.
  - lia.
Qed.

Lemma getTodo_by_decimal_id_witness :
  ∃ created,
    (serve (PostTodos buyMilk) (serve_all [] start)).1
    = {| code := 201; payload := TodoObject created |}
    ∧ (serve (GetTodo (decimal (Z.to_N (Todo.id created))))
         (serve (PostTodos buyMilk) (serve_all [] start)).2).1
      = {| code := 200; payload := TodoObject created |}.
Proof.
  apply (getTodo_by_decimal_id [] buyMilk). reflexivity.
Defined.

(** ** Requests that fail, and the codes of the replies *)

Lemma serve_cases req w :
  match req with
  | GetTodos => code (serve req w).1 = 200 ∧ db (serve req w).2 = db w
  | PostTodos _ => code (serve req w).1 = 201
  | GetTodo raw =>
      db (serve req w).2 = db w
      ∧ match parseIdHook raw with
        | inl _ => (serve req w).1 = invalidId
        | inr id =>
            match find_row id (db w) with
            | Some row =>
                (serve req w).1
                = {| code := 200; payload := TodoObject (serializeTodo row) |}
            | None => (serve req w).1 = internalError
            end
        end
  | PutTodo raw _ =>
      match parseIdHook raw with
      | inl _ => serve req w = (invalidId, w)
      | inr id =>
          match find_row id (db w) with
          | Some _ => code (serve req w).1 = 200
          | None =>
              (serve req w).1 = internalError ∧ db (serve req w).2 = db w
          end
      end
  | DeleteTodo raw =>
      match parseIdHook raw with
      | inl _ => serve req w = (invalidId, w)
      | inr id =>
          match find_row id (db w) with
          | Some _ => (serve req w).1 = {| code := 204; payload := Empty |}
          | None =>
              (serve req w).1 = internalError ∧ db (serve req w).2 = db w
          end
      end
  end.
Proof.
  destruct req as [|raw|body|raw body|raw]; unfold serve, route; try done.
  - destruct (preHandler_cases raw (getTodo fastify) w)
      as [[-> ->]|(id & -> & ->)]; [done|].
    split; [apply getTodo_db|].
    destruct (find_row id (db w)) as [row|] eqn:Hrow.
    + destruct id as [|neg|k]; try done.
      unfold find_row in Hrow. simpl in Hrow.
      destruct (todos (db w) !! k) as [cols|] eqn:Hk; [|done].
      rewrite (getTodo_found _ _ cols) by done. simpl in *. congruence.
    + by rewrite getTodo_missing.
  - destruct (preHandler_cases raw
                (λ id, updateTodo fastify no_other_writer id body) w)
      as [[-> ->]|(id & -> & ->)]; [done|].
    destruct (find_row id (db w)) as [row|] eqn:Hrow.
    + destruct id as [|neg|k]; try done.
      unfold find_row in Hrow. simpl in Hrow.
      destruct (todos (db w) !! k) as [cols|] eqn:Hk; [|done].
      by rewrite (updateTodo_found _ _ cols).
    + by rewrite updateTodo_missing.
  - destruct (preHandler_cases raw (deleteTodo fastify) w)
      as [[-> ->]|(id & -> & ->)]; [done|].
    destruct (find_row id (db w)) as [row|] eqn:Hrow.
    + destruct id as [|neg|k]; try done.
      unfold find_row in Hrow. simpl in Hrow.
      destruct (todos (db w) !! k) as [cols|] eqn:Hk; [|done].
      by rewrite (deleteTodo_found _ _ cols).
    + by rewrite deleteTodo_missing.
Qed.

(** X11.  A request that is answered with a code of 400 or more has changed
    nothing in the database. *)
Theorem failed_request_changes_nothing req w :
  400 ≤ code (serve req w).1 → db (serve req w).2 = db w.
Proof.
  intros Hcode. pose proof (serve_cases req w) as Hcases.
  destruct req as [|raw|body|raw body|raw].
  - by destruct Hcases.
  - by destruct Hcases.
  - lia.
  - destruct (parseIdHook raw) as [r|id]; [by rewrite Hcases|].
    destruct (find_row id (db w)); [lia|by destruct Hcases].
  - destruct (parseIdHook raw) as [r|id]; [by rewrite Hcases|].
    destruct (find_row id (db w)); [|by destruct Hcases].
    rewrite Hcases in Hcode. simpl in Hcode. lia.
Qed.

Lemma failed_request_changes_nothing_witness :
  400 ≤ code (serve (DeleteTodo (lit "7")) oneTodo).1
  ∧ db (serve (DeleteTodo (lit "7")) oneTodo).2 = db oneTodo.
Proof.
  assert (H : 400 ≤ code (serve (DeleteTodo (lit "7")) oneTodo).1)
    by (vm_compute; discriminate).
  split; [done|].
  exact (failed_request_changes_nothing (DeleteTodo (lit "7")) oneTodo H).
Defined.


(** ** Update and delete, followed by other requests *)

Lemma assign_twice cols body :
  foldl assign (foldl assign cols (buildUpdates body)) (buildUpdates body)
  = foldl assign cols (buildUpdates body).
Proof.
  rewrite buildUpdates_cases.
  by destruct (UpdateBody.title body), (UpdateBody.completed body).
Qed.

(** X13.  After an update of a todo that is there, reading its id gives the todo
    that the update returned. *)
Theorem getTodo_after_updateTodo app raw k cols body w :
  parseIdHook raw = inr (Finite k) →
  todos (db w) !! k = Some cols →
  (route app no_other_writer (GetTodo raw)
     (route app no_other_writer (PutTodo raw body) w).2).1
  = (route app no_other_writer (PutTodo raw body) w).1.
Proof.
  intros Hid Hk. unfold route, preHandler. rewrite Hid.
  rewrite (updateTodo_found _ _ cols) by done. simpl.
  rewrite (getTodo_found _ _ (foldl assign cols (buildUpdates body))); [done|].
  simpl. destruct (buildUpdates body); [done|]. simpl. apply lookup_insert_eq.
Qed.

Lemma getTodo_after_updateTodo_witness :
  parseIdHook (lit "1") = inr (Finite 1)
  ∧ todos (db oneTodo) !! 1 = Some (lit "Buy milk", 0)
  ∧ (route fastify no_other_writer (GetTodo (lit "1"))
       (route fastify no_other_writer
          (PutTodo (lit "1") (UpdateBody.mk (Some (lit "Buy tea")) None []))
          oneTodo).2).1
    = (route fastify no_other_writer
         (PutTodo (lit "1") (UpdateBody.mk (Some (lit "Buy tea")) None []))
         oneTodo).1.
Proof.
  assert (Hid : parseIdHook (lit "1") = inr (Finite 1)) by reflexivity.
  assert (Hrow : todos (db oneTodo) !! 1 = Some (lit "Buy milk", 0))
    by (vm_compute; reflexivity).
  split; [done|]. split; [done|].
  exact (getTodo_after_updateTodo fastify (lit "1") 1 (lit "Buy milk", 0)
           (UpdateBody.mk (Some (lit "Buy tea")) None []) oneTodo Hid Hrow).
Defined.

(** X14.  Sending the same update twice gives the reply of the first again and
    leaves the database as the first left it. *)
Theorem updateTodo_twice app raw body w :
  (route app no_other_writer (PutTodo raw body)
     (route app no_other_writer (PutTodo raw body) w).2).1
  = (route app no_other_writer (PutTodo raw body) w).1
  ∧ db (route app no_other_writer (PutTodo raw body)
          (route app no_other_writer (PutTodo raw body) w).2).2
    = db (route app no_other_writer (PutTodo raw body) w).2.
Proof.
  unfold route.
  destruct (preHandler_cases raw
              (λ id, updateTodo app no_other_writer id body) w)
    as [[Hbad ->]|(id & Hid & ->)].
  { by rewrite preHandler_invalid. }
  unfold preHandler. rewrite Hid.
  destruct (find_row id (db w)) as [row|] eqn:Hrow.
  - destruct id as [|neg|k]; try done.
    unfold find_row in Hrow. simpl in Hrow.
    destruct (todos (db w) !! k) as [cols|] eqn:Hk; [|done].
    set (cols1 := foldl assign cols (buildUpdates body)).
    set (w1 := (respond (updateTodo app no_other_writer (Finite k) body) w).2).
    assert (Hk1 : todos (db w1) !! k = Some cols1).
    { unfold w1. rewrite updateTodo_todos. simpl. rewrite Hk.
      apply lookup_insert_eq. }
    rewrite (updateTodo_found app k cols1 body w1 Hk1).
    rewrite (updateTodo_found app k cols body w Hk).
    unfold cols1. rewrite assign_twice. simpl. split; [done|].
    pose proof (assign_twice cols body) as Hagain. fold cols1 in Hagain |- *.
    destruct (buildUpdates body) as [|a sets]; [done|].
    change (foldl assign (assign cols1 a) sets)
      with (foldl assign cols1 (a :: sets)).
    rewrite Hagain, insert_id by done. by destruct (db w1).
  - rewrite (updateTodo_missing app no_other_writer id body w Hrow). simpl.
    rewrite updateTodo_missing; [done|exact Hrow].
Qed.

Lemma max_rowid_le (m : gmap Z (jsstring * Z)) b :
  0 ≤ b → (∀ k c, m !! k = Some c → k ≤ b) → max_rowid m ≤ b.
Proof.
  intros Hb. unfold max_rowid.
  apply (map_fold_weak_ind
           (λ r (m : gmap Z (jsstring * Z)),
              (∀ k c, m !! k = Some c → k ≤ b) → r ≤ b)); [done|].
  intros k c m' r Hk IH Hall.
  assert (k ≤ b) by (apply (Hall k c), lookup_insert_eq).
  assert (r ≤ b); [|lia].
  apply IH. intros j c' Hj. apply (Hall j c').
  rewrite lookup_insert_ne; [done|]. congruence.
Qed.

Lemma max_rowid_nonneg (m : gmap Z (jsstring * Z)) : 0 ≤ max_rowid m.
Proof.
  unfold max_rowid.
  apply (map_fold_weak_ind (λ r (_ : gmap Z (jsstring * Z)), 0 ≤ r));
    [done|]. intros. lia.
Qed.

Lemma max_rowid_dom (m1 m2 : gmap Z (jsstring * Z)) :
  dom m1 = dom m2 → max_rowid m1 = max_rowid m2.
Proof.
  intros Hdom. apply Z.le_antisymm.
  - apply max_rowid_le; [apply max_rowid_nonneg|]. intros k c Hk.
    assert (k ∈ dom m2) as [c' Hc']%elem_of_dom
      by (rewrite <- Hdom; apply elem_of_dom; eauto).
    by apply max_rowid_ge in Hc'.
  - apply max_rowid_le; [apply max_rowid_nonneg|]. intros k c Hk.
    assert (k ∈ dom m1) as [c' Hc']%elem_of_dom
      by (rewrite Hdom; apply elem_of_dom; eauto).
    by apply max_rowid_ge in Hc'.
Qed.

(** X15.  An update adds no row and removes none: the ids in the table, and the
    id the next create will be given, are what they were. *)
Theorem updateTodo_keeps_the_ids app raw body w :
  dom (todos (db (route app no_other_writer (PutTodo raw body) w).2))
  = dom (todos (db w))
  ∧ next_rowid (db (route app no_other_writer (PutTodo raw body) w).2)
    = next_rowid (db w).
Proof.
  unfold route.
  destruct (preHandler_cases raw
              (λ id, updateTodo app no_other_writer id body) w)
    as [[_ ->]|(id & _ & ->)]; [done|].
  destruct (find_row id (db w)) as [row|] eqn:Hrow.
  - destruct id as [|neg|k]; try done.
    unfold find_row in Hrow. simpl in Hrow.
    destruct (todos (db w) !! k) as [cols|] eqn:Hk; [|done].
    rewrite (updateTodo_found _ _ cols) by done. simpl.
    destruct (buildUpdates body) as [|a sets]; [done|]. simpl.
    assert (Hdom : dom (<[k := foldl assign (assign cols a) sets]>
                          (todos (db w)))
                   = dom (todos (db w)))
      by (apply dom_insert_lookup_L; eauto).
    split; [done|]. unfold next_rowid. simpl.
    by rewrite (max_rowid_dom _ _ Hdom).
  - by rewrite updateTodo_missing.
Qed.

(** X16.  After a delete with an id the hook accepts, no row has that id, the
    table has one row less when there was one and as many otherwise, and a
    second delete of the same id changes nothing. *)
Theorem deleteTodo_removes_the_row app writers raw id w :
  parseIdHook raw = inr id →
  find_row id (db (route app writers (DeleteTodo raw) w).2) = None
  ∧ size (todos (db (route app writers (DeleteTodo raw) w).2))
    = match find_row id (db w) with
      | Some _ => pred (size (todos (db w)))
      | None => size (todos (db w))
      end
  ∧ db (route app writers (DeleteTodo raw)
          (route app writers (DeleteTodo raw) w).2).2
    = db (route app writers (DeleteTodo raw) w).2.
Proof.
  intros Hid. unfold route, preHandler. rewrite Hid.
  assert (Hgone :
    find_row id (db (respond (deleteTodo app id) w).2) = None).
  { unfold find_row. rewrite deleteTodo_todos.
    destruct id as [|neg|k]; simpl; try done. by rewrite lookup_delete_eq. }
  split_and!; [done| |].
  - rewrite deleteTodo_todos. unfold find_row.
    destruct id as [|neg|k]; simpl; try done.
    rewrite map_size_delete. by destruct (todos (db w) !! k).
  - by rewrite (deleteTodo_missing app id _ Hgone).
Qed.

Lemma deleteTodo_removes_the_row_witness :
  parseIdHook (lit "2") = inr (Finite 2)
  ∧ find_row (Finite 2)
      (db (route fastify no_other_writer (DeleteTodo (lit "2")) twoTodos).2)
    = None.
Proof.
  assert (Hid : parseIdHook (lit "2") = inr (Finite 2)) by reflexivity.
  split; [done|].
  exact (proj1 (deleteTodo_removes_the_row fastify no_other_writer (lit "2")
                  (Finite 2) twoTodos Hid)).
Defined.

(** ** Update next to another writer *)

(** X18.  The update works on the row as it is when its second statement runs:
    what another connection wrote to the row after the existence check
    shows in the reply, in every field the update does not set. *)
Theorem updateTodo_applies_to_current_row app writers k cols cols' body w :
  todos (db w) !! k = Some cols →
  todos (writers (db w)) !! k = Some cols' →
  (respond (updateTodo app writers (Finite k) body) w).1
  = {| code := 200;
       payload := TodoObject
                    (serializeTodo
                       (row_at k (foldl assign cols' (buildUpdates body)))) |}.
Proof.
  intros Hk Hk'.
  unfold respond, updateTodo, bind, select_1_by_id, select_by_id,
    update_returning, between_statements, statement, find_row.
  simpl. rewrite Hk. simpl.
  destruct (buildUpdates body) as [|a sets]; simpl; by rewrite Hk'.
Qed.

Lemma updateTodo_applies_to_current_row_witness :
  todos (db oneTodo) !! 1 = Some (lit "Buy milk", 0)
  ∧ todos (rename_all (lit "Buy tea") (db oneTodo)) !! 1
    = Some (lit "Buy tea", 0)
  ∧ (respond (updateTodo fastify (rename_all (lit "Buy tea")) (Finite 1)
                (UpdateBody.mk None (Some true) [])) oneTodo).1
    = {| code := 200;
         payload := TodoObject (Todo.mk 1 (lit "Buy tea") true) |}.
Proof.
  assert (Hrow : todos (db oneTodo) !! 1 = Some (lit "Buy milk", 0))
    by (vm_compute; reflexivity).
  assert (Hrow' : todos (rename_all (lit "Buy tea") (db oneTodo)) !! 1
                  = Some (lit "Buy tea", 0))
    by (vm_compute; reflexivity).
  split; [done|]. split; [done|].
  exact (updateTodo_applies_to_current_row fastify (rename_all (lit "Buy tea"))
           1 (lit "Buy milk", 0) (lit "Buy tea", 0)
           (UpdateBody.mk None (Some true) []) oneTodo Hrow Hrow').
Defined.
